(** * floss/decoding_manager.py: emulation monitor, API shims and delta collection

    A shallow embedding of [floss/decoding_manager.py] (Python 2).  Python
    integers are unbounded and are modelled by [Z]; Python 2 [str] values
    used as raw memory are [list byte]; exceptions are the values of [Exn];
    code that mutates the emulator or a hook object in place is written in
    a state monad whose state survives a raised exception, as an object
    mutated before a [raise] stays mutated in Python. *)

From stdpp Require Import base numbers list strings gmap sorting.
From Stdlib.Strings Require Import Byte.
Local Open Scope Z_scope.

(** ** Exceptions *)

(** Every class listed here derives from Python's [Exception].  The first
    six are the classes named in the source; the others are what the
    built-in operations used by the source raise. *)
Inductive Exn : Type :=
| UnsupportedFunction                       (* viv_utils.emulator_drivers *)
| StopEmulation                             (* viv_utils.emulator_drivers *)
| InstructionRangeExceededError (pc : Z)    (* viv_utils.emulator_drivers *)
| InvalidInstruction                        (* envi *)
| UnsupportedInstruction                    (* envi *)
| BreakpointHit                             (* envi *)
| SegmentationViolation (va : Z)            (* envi: access to unmapped memory *)
| StructError                               (* struct.unpack on a short read *)
| KeyError (k : Z)                          (* function_index[va] *)
| ValueError                                (* xrange with step 0 *)
| ZeroDivisionError                         (* i % 0 *)
| Exception (msg : string).                 (* raise Exception(msg) *)

(** A computation that returns or raises. *)
Definition Res (T : Type) : Type := Exn + T.

(** A computation over a mutable state [S] that returns or raises; the
    state reached when the exception is raised is kept. *)
Definition M (S T : Type) : Type := S -> S * Res T.

Global Instance Res_ret : MRet Res := fun _ x => inr x.
Global Instance Res_bind : MBind Res := fun _ _ f m =>
  match m with inl e => inl e | inr x => f x end.
Global Instance M_ret {S} : MRet (M S) := fun _ x s => (s, inr x).
Global Instance M_bind {S} : MBind (M S) := fun _ _ f m s =>
  match m s with
  | (s', inl e) => (s', inl e)
  | (s', inr x) => f x s'
  end.

Definition raise {S T} (e : Exn) : M S T := fun s => (s, inl e).
Definition get {S} : M S S := fun s => (s, inr s).
Definition put {S} (s : S) : M S unit := fun _ => (s, inr tt).
Definition modify {S} (f : S -> S) : M S unit := fun s => (f s, inr tt).
(** Run a pure fallible computation on the current state. *)
Definition ask {S T} (f : S -> Res T) : M S T := fun s => (s, f s).
(** Run a fallible state update; a failed update leaves the state as it was. *)
Definition update {S} (f : S -> Res S) : M S unit := fun s =>
  match f s with inl e => (s, inl e) | inr s' => (s', inr tt) end.

(** [for x in xs: body(x)] *)
Fixpoint for_each {S A} (xs : list A) (body : A -> M S unit) : M S unit :=
  match xs with
  | [] => mret tt
  | x :: rest => body x ≫= fun _ => for_each rest body
  end.

(** [try: body  except Exception: pass] *)
Definition try_except_Exception {S} (body : M S unit) : M S unit := fun s =>
  match body s with
  | (s', inl _) => (s', inr tt)
  | (s', inr u) => (s', inr u)
  end.

(** Run a computation over a component of a pair, leaving the other alone. *)
Definition on_snd {A S T} (m : M S T) : M (A * S) T := fun '(a, s) =>
  match m s with (s', r) => ((a, s'), r) end.

(** [xrange(start, stop, step)] as the list of values it yields. *)
Definition xrange (start stop step : Z) : Res (list Z) :=
  if decide (step = 0) then inl ValueError
  else
    let n := if decide (0 < step)
             then (stop - start + step - 1) `div` step
             else (start - stop - step - 1) `div` (- step) in
    inr ((fun k : nat => start + Z.of_nat k * step) <$> seq 0 (Z.to_nat n)).

(** ** The emulator engine (envi / vivisect)

    The engine is a collaborator outside this source file.  Its state is
    modelled by the parts the source reads or writes through the engine's
    interface: the list of memory maps, the stack counter, the program
    counter, the pointer size, the taints, and the workspace it parses
    opcodes from.  Registers hold the integer they are given: the engine's
    truncation to the register width is its own and is not modelled. *)

(** An instruction operand; the source reads only [imm]. *)
Record Operand := { imm : Z }.

(** A decoded instruction: [op.va], [op.size], [op.mnem], [op.opers]. *)
Record Opcode := { va : Z; size : Z; mnem : string; opers : list Operand }.

(** A taint tuple [(va, type, info)]; the source reads only [t[1]]. *)
Record Taint := { tva : Z; ttype : string }.

(** The vivisect workspace: callers of a function and the opcode found at
    an address. *)
Record Workspace := {
  callers : gmap Z (list Z);
  opcodes : gmap Z Opcode
}.

Record MemoryMap := {
  mva : Z;             (* base address *)
  msize : Z;           (* size given when the map was added *)
  mperms : Z;
  mfname : string;
  mbytes : list byte
}.

Record Emulator := {
  maps : list MemoryMap;
  sp : Z;
  pc : Z;
  imem_psize : Z;
  regs : list (string * Z);
  taints : gmap Z Taint;
  vw : Workspace
}.

Definition MM_RWX : Z := 7.

Definition getStackCounter (emu : Emulator) : Z := sp emu.
Definition getProgramCounter (emu : Emulator) : Z := pc emu.
Definition getPointerSize (emu : Emulator) : Z := imem_psize emu.

Definition setStackCounter (v : Z) (emu : Emulator) : Emulator :=
  {| maps := maps emu; sp := v; pc := pc emu; imem_psize := imem_psize emu;
     regs := regs emu; taints := taints emu; vw := vw emu |}.

Definition setProgramCounter (v : Z) (emu : Emulator) : Emulator :=
  {| maps := maps emu; sp := sp emu; pc := v; imem_psize := imem_psize emu;
     regs := regs emu; taints := taints emu; vw := vw emu |}.

Definition set_maps (ms : list MemoryMap) (emu : Emulator) : Emulator :=
  {| maps := ms; sp := sp emu; pc := pc emu; imem_psize := imem_psize emu;
     regs := regs emu; taints := taints emu; vw := vw emu |}.

Definition getMemorySnap (emu : Emulator) : list MemoryMap := maps emu.
Definition getVivTaint (emu : Emulator) (a : Z) : option Taint := taints emu !! a.
Definition getCallers (w : Workspace) (fva : Z) : list Z := default [] (callers w !! fva).

Definition parseOpcode (a : Z) (emu : Emulator) : Res Opcode :=
  match opcodes (vw emu) !! a with
  | Some op => inr op
  | None => inl InvalidInstruction
  end.

Definition in_map (a : Z) (m : MemoryMap) : bool :=
  bool_decide (mva m <= a) && bool_decide (a < mva m + msize m).

(** [bytes[off:off+len]] for a non-negative [off] *)
Definition slice (bs : list byte) (off len : Z) : list byte :=
  take (Z.to_nat len) (drop (Z.to_nat off) bs).

(** [addMemoryMap(va, perms, fname, bytes)]: the new map goes to the end of
    the list. *)
Definition addMemoryMap (a perms : Z) (fname : string) (bs : list byte)
    (emu : Emulator) : Emulator :=
  set_maps (maps emu ++ [{| mva := a; msize := Z.of_nat (length bs);
                            mperms := perms; mfname := fname; mbytes := bs |}]) emu.

(** [readMemory(va, size)]: the first map that holds [va] serves the read. *)
Definition readMemory (a len : Z) (emu : Emulator) : Res (list byte) :=
  match List.find (in_map a) (maps emu) with
  | Some m => inr (slice (mbytes m) (a - mva m) len)
  | None => inl (SegmentationViolation a)
  end.

Fixpoint write_maps (a : Z) (bs : list byte) (ms : list MemoryMap)
    : option (list MemoryMap) :=
  match ms with
  | [] => None
  | m :: rest =>
      if in_map a m then
        let off := Z.to_nat (a - mva m) in
        Some ({| mva := mva m; msize := msize m; mperms := mperms m;
                 mfname := mfname m;
                 mbytes := take off (mbytes m) ++ bs
                           ++ drop (off + length bs)%nat (mbytes m) |} :: rest)
      else (m ::.) <$> write_maps a bs rest
  end.

(** [writeMemory(va, bytes)]: the first map that holds [va] takes the write. *)
Definition writeMemory (a : Z) (bs : list byte) (emu : Emulator) : Res Emulator :=
  match write_maps a bs (maps emu) with
  | Some ms => inr (set_maps ms emu)
  | None => inl (SegmentationViolation a)
  end.

(** Little-endian decoding of an unsigned integer. *)
Fixpoint le_decode (bs : list byte) : Z :=
  match bs with
  | [] => 0
  | b :: rest => Z.of_N (Byte.to_N b) + 256 * le_decode rest
  end.

(** [readMemoryFormat(va, "<P")[0]]: one little-endian pointer. *)
Definition readMemoryFormat_P (a : Z) (emu : Emulator) : Res Z :=
  bs ← readMemory a (imem_psize emu) emu;
  if decide (Z.of_nat (length bs) = imem_psize emu) then inr (le_decode bs)
  else inl StructError.

(** [getStackValue(offset)] of viv_utils' emulator helper mixin, shared by
    monitors and drivers: the pointer stored at [sp + offset]. *)
Definition getStackValue (offset : Z) (emu : Emulator) : Res Z :=
  readMemoryFormat_P (getStackCounter emu + offset) emu.

(** A calling convention; the source uses only [execCallReturn]. *)
Record CallConv := { execCallReturn : Z -> Z -> Emulator -> Emulator }.

(** What [Hook.hook] returns when it does not raise: [True] or, by falling
    off the end of the method, [None]. *)
Inductive HookReturn := ReturnsTrue | ReturnsNone.

(** ** Value types of the module *)

(** [DecodedString], a named tuple the later stages fill in. *)
Record DecodedString := {
  ds_va : Z;
  ds_s : list byte;
  decoded_at_va : Z;
  ds_fva : Z;
  characteristics : list (string * string)
}.

Inductive LocationType := STACK | GLOBAL | HEAP.

(** The [value] of a [LocationType] member. *)
Definition LocationType_value (l : LocationType) : Z :=
  match l with STACK => 1 | GLOBAL => 2 | HEAP => 3 end.

(** ** Helpers of the module *)

(** [pointerSize(emu)] *)
Definition pointerSize (emu : Emulator) : Z := imem_psize emu.

(** [popStack(emu)] *)
Definition popStack : M Emulator Z :=
  v ← ask (fun emu => readMemoryFormat_P (getStackCounter emu) emu);
  emu ← get;
  modify (setStackCounter (getStackCounter emu + pointerSize emu));;
  mret v.

(** [round(i, size)], as the source computes it. *)
Definition round (i size : Z) : Res Z :=
  if decide (size = 0) then inl ZeroDivisionError
  else if decide (i `mod` size = 0) then inr i
  else inr (i + (i - (i `mod` size))).

(** ** Hooks

    A hook method runs on the hook object [self] and on the emulator the
    driver wraps (the source uses [driver], [emu] and [driver._emu] for the
    same machine); its state is the pair of both. *)

Record CallEvent := {
  callname : string;
  callconv : CallConv;
  argv : list Z
}.

Definition len {A} (l : list A) : Z := Z.of_nat (length l).

Module GetProcessHeapHook.
(** [GetProcessHeapHook.hook] *)
Definition hook (ev : CallEvent) : M (unit * Emulator) HookReturn :=
  if decide (callname ev = "kernel32.GetProcessHeap") then
    on_snd (modify (execCallReturn (callconv ev) 0 (len (argv ev))));;
    mret ReturnsTrue
  else raise UnsupportedFunction.
End GetProcessHeapHook.

Module RtlAllocateHeapHook.
Record t := { _heap_addr : Z }.

(** [RtlAllocateHeapHook.__init__] *)
Definition __init__ : t := {| _heap_addr := 0x69690000 |}.

Definition MAX_ALLOCATION_SIZE : Z := 10 * 1024 * 1024.

(** The first three lines of [_allocate_mem]: the number of bytes the
    call grants for a requested size. *)
Definition granted_size (size : Z) : Res Z :=
  size ← round size 0x1000;
  mret (if decide (size > MAX_ALLOCATION_SIZE) then MAX_ALLOCATION_SIZE else size).

(** [RtlAllocateHeapHook._allocate_mem] *)
Definition _allocate_mem (size : Z) : M (t * Emulator) Z :=
  size ← ask (fun _ => granted_size size);
  '(self, _) ← get;
  let va := _heap_addr self in
  on_snd (modify (addMemoryMap va MM_RWX "[heap allocation]"
                    (replicate (Z.to_nat (size + 4)) x00)));;
  on_snd (update (writeMemory va (replicate (Z.to_nat size) x00)));;
  modify (fun '(self, emu) => ({| _heap_addr := _heap_addr self + size |}, emu));;
  mret va.

(** [RtlAllocateHeapHook.hook] *)
Definition hook (ev : CallEvent) : M (t * Emulator) HookReturn :=
  if decide (callname ev = "ntdll.RtlAllocateHeap") then
    size ← on_snd (ask (getStackValue 0xC));
    va ← _allocate_mem size;
    on_snd (modify (execCallReturn (callconv ev) va (len (argv ev))));;
    mret ReturnsTrue
  else raise UnsupportedFunction.
End RtlAllocateHeapHook.

(** [AllocateHeap] and [MallocHeap] inherit the state and [_allocate_mem]
    of [RtlAllocateHeapHook]; each instance has a cursor of its own. *)
Module AllocateHeap.
Definition t := RtlAllocateHeapHook.t.
Definition __init__ : t := RtlAllocateHeapHook.__init__.

(** [AllocateHeap.hook] *)
Definition hook (ev : CallEvent) : M (t * Emulator) HookReturn :=
  if decide (callname ev = "kernel32.LocalAlloc"
             ∨ callname ev = "kernel32.GlobalAlloc"
             ∨ callname ev = "kernel32.VirtualAlloc") then
    size ← on_snd (ask (getStackValue 0x8));
    va ← RtlAllocateHeapHook._allocate_mem size;
    on_snd (modify (execCallReturn (callconv ev) va (len (argv ev))));;
    mret ReturnsTrue
  else raise UnsupportedFunction.
End AllocateHeap.

Module MallocHeap.
Definition t := RtlAllocateHeapHook.t.
Definition __init__ : t := RtlAllocateHeapHook.__init__.

(** [MallocHeap.hook] *)
Definition hook (ev : CallEvent) : M (t * Emulator) HookReturn :=
  if decide (callname ev = "msvcrt.malloc") then
    size ← on_snd (ask (getStackValue 0x4));
    va ← RtlAllocateHeapHook._allocate_mem 0x100;
    on_snd (modify (execCallReturn (callconv ev) va (len (argv ev))));;
    mret ReturnsTrue
  else raise UnsupportedFunction.
End MallocHeap.

Module ExitProcessHook.
(** [ExitProcessHook.hook] *)
Definition hook (ev : CallEvent) : M (unit * Emulator) HookReturn :=
  if decide (callname ev = "kernel32.ExitProcess") then raise StopEmulation
  else mret ReturnsNone.
End ExitProcessHook.

(** [is_import(emu, va)] *)
Definition is_import (emu : Emulator) (a : Z) : bool :=
  match getVivTaint emu a with
  | None => false
  | Some t => bool_decide (ttype t = "import")
  end.

Record Snapshot := {
  memory : list MemoryMap;
  snap_sp : Z;
  snap_pc : Z
}.

(** [make_snapshot(emu)] *)
Definition make_snapshot (emu : Emulator) : Snapshot :=
  {| memory := getMemorySnap emu;
     snap_sp := getStackCounter emu;
     snap_pc := getProgramCounter emu |}.

Record Delta := { pre_snap : Snapshot; post_snap : Snapshot }.

Module DeltaCollectorHook.
Record t := { _pre_snap : Snapshot; deltas : list Delta }.

(** [DeltaCollectorHook.__init__] *)
Definition __init__ (pre : Snapshot) : t := {| _pre_snap := pre; deltas := [] |}.

(** [self.deltas.append(d)] *)
Definition append (d : Delta) (self : t) : t :=
  {| _pre_snap := _pre_snap self; deltas := deltas self ++ [d] |}.

(** [DeltaCollectorHook.hook] *)
Definition hook (ev : CallEvent) : M (t * Emulator) HookReturn :=
  '(self, emu) ← get;
  (if is_import emu (getProgramCounter emu) then
     put (append {| pre_snap := _pre_snap self; post_snap := make_snapshot emu |} self, emu)
   else mret tt);;
  mret ReturnsNone.
End DeltaCollectorHook.

(** ** The return-address monitor *)

Module ApiMonitor.
Record t := { _vw : Workspace; function_index : gmap Z Z }.

(** [ApiMonitor.__init__] *)
Definition __init__ (w : Workspace) (fi : gmap Z Z) : t :=
  {| _vw := w; function_index := fi |}.

(** [ApiMonitor.dumpStack]: the text it builds goes to the debug log only
    and is left out; the stack reads it makes are kept, as a failed read
    raises. *)
Definition dumpStack : M Emulator unit :=
  offsets ← ask (fun _ => xrange 16 (-16) (-4));
  for_each offsets (fun i => ask (getStackValue i) ≫= fun _ => mret tt).

(** The loop of [_get_return_vas] over the callers still to visit. *)
Fixpoint return_vas_loop (cs : list Z) (return_vas : list Z) : M Emulator (list Z) :=
  match cs with
  | [] => mret return_vas
  | caller :: rest =>
      call_op ← ask (parseOpcode caller);
      let return_va := va call_op + size call_op in
      return_vas_loop rest (return_vas ++ [return_va])
  end.

(** [ApiMonitor._get_return_vas] *)
Definition _get_return_vas (self : t) (function_start : Z) : M Emulator (list Z) :=
  return_vas_loop (getCallers (_vw self) function_start) [].

(** The [for offset in xrange(...)] loop of [_fix_return]; it answers
    whether the body returned from inside the loop. *)
Fixpoint scan_stack (esp pointer_size : Z) (return_addresses : list Z)
    (offsets : list Z) : M Emulator bool :=
  match offsets with
  | [] => mret false
  | offset :: rest =>
      ret_va_candidate ← ask (getStackValue offset);
      if decide (ret_va_candidate ∈ return_addresses) then
        modify (setProgramCounter ret_va_candidate);;
        modify (setStackCounter (esp + offset + pointer_size));;
        dumpStack;;
        mret true
      else scan_stack esp pointer_size return_addresses rest
  end.

Definition NUM_ADDRESSES : Z := 4.

(** [ApiMonitor._fix_return] *)
Definition _fix_return (return_address : Z) (return_addresses : list Z)
    : M Emulator unit :=
  dumpStack;;
  emu ← get;
  let pointer_size := getPointerSize emu in
  let STACK_SEARCH_WINDOW := pointer_size * NUM_ADDRESSES in
  let esp := getStackCounter emu in
  offsets ← ask (fun _ => xrange 0 STACK_SEARCH_WINDOW pointer_size);
  returned ← scan_stack esp pointer_size return_addresses offsets;
  if returned : bool then mret tt
  else dumpStack;; raise (Exception "No valid return address found...").

(** [ApiMonitor._check_return] *)
Definition _check_return (self : t) (op : Opcode) : M Emulator unit :=
  function_start ← ask (fun _ => match function_index self !! va op with
                                 | Some f => inr f
                                 | None => inl (KeyError (va op))
                                 end);
  return_addresses ← _get_return_vas self function_start;
  match opers op with
  | o :: _ =>
      (* adjust stack in case of `ret imm16` instruction *)
      modify (fun emu => setStackCounter (getStackCounter emu - imm o) emu)
  | [] => mret tt
  end;;
  return_address ← ask (getStackValue (-4));
  if decide (return_address ∉ return_addresses) then
    _fix_return return_address return_addresses
  else mret tt.

(** [ApiMonitor.posthook] *)
Definition posthook (self : t) (op : Opcode) (endpc : Z) : M Emulator unit :=
  if decide (mnem op = "ret") then try_except_Exception (_check_return self op)
  else mret tt.
End ApiMonitor.

(** ** The emulator driver (viv_utils.emulator_drivers) *)

(** The objects a run creates and mutates: the emulator and the hook
    instances that carry state.  [emulate_function] keeps a reference to
    the collector it registers; both names denote the one object held
    here. *)
Record Store := {
  emu_of : Emulator;
  delta_collector : DeltaCollectorHook.t;
  rtl_allocate_heap : RtlAllocateHeapHook.t;
  allocate_heap : AllocateHeap.t;
  malloc_heap : MallocHeap.t
}.

Definition set_emu (e : Emulator) (st : Store) : Store :=
  {| emu_of := e; delta_collector := delta_collector st;
     rtl_allocate_heap := rtl_allocate_heap st;
     allocate_heap := allocate_heap st; malloc_heap := malloc_heap st |}.
Definition set_delta_collector (h : DeltaCollectorHook.t) (st : Store) : Store :=
  {| emu_of := emu_of st; delta_collector := h;
     rtl_allocate_heap := rtl_allocate_heap st;
     allocate_heap := allocate_heap st; malloc_heap := malloc_heap st |}.
Definition set_rtl_allocate_heap (h : RtlAllocateHeapHook.t) (st : Store) : Store :=
  {| emu_of := emu_of st; delta_collector := delta_collector st;
     rtl_allocate_heap := h;
     allocate_heap := allocate_heap st; malloc_heap := malloc_heap st |}.
Definition set_allocate_heap (h : AllocateHeap.t) (st : Store) : Store :=
  {| emu_of := emu_of st; delta_collector := delta_collector st;
     rtl_allocate_heap := rtl_allocate_heap st;
     allocate_heap := h; malloc_heap := malloc_heap st |}.
Definition set_malloc_heap (h : MallocHeap.t) (st : Store) : Store :=
  {| emu_of := emu_of st; delta_collector := delta_collector st;
     rtl_allocate_heap := rtl_allocate_heap st;
     allocate_heap := allocate_heap st; malloc_heap := h |}.

(** A method of the hook object read by [rd] and written back by [wr],
    run on the store. *)
Definition bound {H T} (rd : Store -> H) (wr : H -> Store -> Store)
    (m : M (H * Emulator) T) : M Store T := fun st =>
  match m (rd st, emu_of st) with
  | ((h, e), r) => (set_emu e (wr h st), r)
  end.

(** A method of the monitor, which only touches the emulator. *)
Definition on_emu {T} (m : M Emulator T) : M Store T := fun st =>
  match m (emu_of st) with (e, r) => (set_emu e st, r) end.

(** A registered hook: the bound [hook] method of a hook object. *)
Definition Hook := CallEvent -> M Store HookReturn.

Record Driver := {
  _monitors : list ApiMonitor.t;
  _hooks : list Hook
}.

Definition add_monitor (mon : ApiMonitor.t) (d : Driver) : Driver :=
  {| _monitors := _monitors d ++ [mon]; _hooks := _hooks d |}.
Definition add_hook (h : Hook) (d : Driver) : Driver :=
  {| _monitors := _monitors d; _hooks := _hooks d ++ [h] |}.

(** What one step of the engine does to the machine: it retires an
    instruction, retires a call the driver offers to its hooks (the program
    counter is then at the call's target), or faults. *)
Inductive StepResult :=
| Retired (op : Opcode) (emu' : Emulator)
| Called (op : Opcode) (ev : CallEvent) (emu' : Emulator)
| Faulted (e : Exn) (emu' : Emulator).

Definition Engine := Emulator -> StepResult.

(** Modelled from the spec: the hook chain of the driver, whose code is
    not part of the source.  The hooks are tried in registration order; a
    hook that returns [True] has handled the call and ends the chain; a
    hook that returns [None] or raises [UnsupportedFunction] passes the call
    on; any other exception leaves the chain. *)
Fixpoint run_hooks (hooks : list Hook) (ev : CallEvent) : M Store bool :=
  match hooks with
  | [] => mret false
  | h :: rest => fun st =>
      match h ev st with
      | (st', inr ReturnsTrue) => (st', inr true)
      | (st', inr ReturnsNone) => run_hooks rest ev st'
      | (st', inl UnsupportedFunction) => run_hooks rest ev st'
      | (st', inl e) => (st', inl e)
      end
  end.

(** Modelled from the spec: one step of the driver.  The engine executes
    one instruction; a call is offered to the hook chain; then every
    monitor's [posthook] runs.  ([prehook] and [apicall] only write to the
    debug log.) *)
Definition stepi (engine : Engine) (d : Driver) : M Store unit :=
  st ← get;
  match engine (emu_of st) with
  | Faulted e emu' => modify (set_emu emu');; raise e
  | Retired op emu' =>
      modify (set_emu emu');;
      for_each (_monitors d) (fun mon => on_emu (ApiMonitor.posthook mon op (pc emu')))
  | Called op ev emu' =>
      modify (set_emu emu');;
      run_hooks (_hooks d) ev;;
      for_each (_monitors d) (fun mon => on_emu (ApiMonitor.posthook mon op (pc emu')))
  end.

(** Modelled from the spec: [runToVa(va, max_instruction_count)] with the
    instruction budget still left as [budget]: step until the program
    counter is [va]; an exhausted budget raises
    [InstructionRangeExceededError]. *)
Fixpoint runToVa (engine : Engine) (d : Driver) (target : Z) (budget : nat)
    : M Store unit :=
  match budget with
  | O => st ← get; raise (InstructionRangeExceededError (pc (emu_of st)))
  | S budget' =>
      st ← get;
      if decide (getProgramCounter (emu_of st) = target) then mret tt
      else stepi engine d;; runToVa engine d target budget'
  end.

(** ** The orchestrator *)

(** The [except] clauses of [emulate_function], in source order: the clause
    that catches an exception, if one does.  Each clause only writes to the
    debug log (or passes). *)
Inductive ExceptClause :=
| except_InstructionRangeExceededError
| except_InvalidInstruction
| except_UnsupportedInstruction
| except_BreakpointHit
| except_StopEmulation
| except_Exception.

Definition except_clause (e : Exn) : option ExceptClause :=
  match e with
  | InstructionRangeExceededError _ => Some except_InstructionRangeExceededError
  | InvalidInstruction => Some except_InvalidInstruction
  | UnsupportedInstruction => Some except_UnsupportedInstruction
  | BreakpointHit => Some except_BreakpointHit
  | StopEmulation => Some except_StopEmulation
  | _ => Some except_Exception
  end.

(** The bound [hook] methods of the hook objects of a run. *)
Definition delta_collector_hook : Hook :=
  bound delta_collector set_delta_collector ∘ DeltaCollectorHook.hook.
Definition get_process_heap_hook : Hook :=
  bound (fun _ => tt) (fun _ st => st) ∘ GetProcessHeapHook.hook.
Definition rtl_allocate_heap_hook : Hook :=
  bound rtl_allocate_heap set_rtl_allocate_heap ∘ RtlAllocateHeapHook.hook.
Definition allocate_heap_hook : Hook :=
  bound allocate_heap set_allocate_heap ∘ AllocateHeap.hook.
Definition malloc_heap_hook : Hook :=
  bound malloc_heap set_malloc_heap ∘ MallocHeap.hook.
Definition exit_process_hook : Hook :=
  bound (fun _ => tt) (fun _ st => st) ∘ ExitProcessHook.hook.

(** The driver [emulate_function] sets up inside its [try]. *)
Definition make_driver (monitor : ApiMonitor.t) : Driver :=
  let driver := {| _monitors := []; _hooks := [] |} in
  let driver := add_monitor monitor driver in
  let driver := add_hook delta_collector_hook driver in
  let driver := add_hook get_process_heap_hook driver in
  let driver := add_hook rtl_allocate_heap_hook driver in
  let driver := add_hook allocate_heap_hook driver in
  let driver := add_hook malloc_heap_hook driver in
  let driver := add_hook exit_process_hook driver in
  driver.

(** The objects [emulate_function] creates for a run on [emu]. *)
Definition initial_store (emu : Emulator) : Store :=
  {| emu_of := emu;
     delta_collector := DeltaCollectorHook.__init__ (make_snapshot emu);
     rtl_allocate_heap := RtlAllocateHeapHook.__init__;
     allocate_heap := AllocateHeap.__init__;
     malloc_heap := MallocHeap.__init__ |}.

(** [emulate_function(emu, function_index, fva, return_address,
    max_instruction_count)], on the emulator it is given and mutates. *)
Definition emulate_function (engine : Engine) (function_index : gmap Z Z)
    (fva return_address max_instruction_count : Z) : M Emulator (list Delta) :=
  fun emu =>
  let pre_snap := make_snapshot emu in
  let monitor := ApiMonitor.__init__ (vw emu) function_index in
  let driver := make_driver monitor in
  let '(store, r) := runToVa engine driver return_address
                       (Z.to_nat max_instruction_count) (initial_store emu) in
  let emu := emu_of store in
  let caught :=
    match r with
    | inr _ => None
    | inl e => match except_clause e with Some _ => None | None => Some e end
    end in
  match caught with
  | Some e => (emu, inl e)
  | None =>
      let deltas := DeltaCollectorHook.deltas (delta_collector store) in
      let deltas := deltas ++ [{| pre_snap := pre_snap; post_snap := make_snapshot emu |}] in
      (emu, inr deltas)
  end.

(** ** Concrete machines *)

Module Examples.
Definition byte_of (v : Z) : byte := default x00 (Byte.of_N (Z.to_N (v `mod` 256))).

(** The four bytes of a 32-bit word, little-endian. *)
Definition word (v : Z) : list byte :=
  [byte_of v; byte_of (v `div` 256); byte_of (v `div` 65536); byte_of (v `div` 16777216)].

(** A stack map of sixteen words based at [0x1000]. *)
Definition stack_map (ws : list Z) : MemoryMap :=
  {| mva := 0x1000; msize := 64; mperms := 6; mfname := "[stack]";
     mbytes := concat (word <$> ws) |}.

(** A function at [0x401000] that returns at [0x401010], and its three
    call sites. *)
Definition call_at (a : Z) : Opcode :=
  {| va := a; size := 5; mnem := "call"; opers := [{| imm := 0x401000 |}] |}.
Definition workspace : Workspace :=
  {| callers := {[ 0x401000 := [0x402000; 0x402100; 0x402200] ]};
     opcodes := {[ 0x402000 := call_at 0x402000;
                   0x402100 := call_at 0x402100;
                   0x402200 := call_at 0x402200 ]} |}.
Definition index : gmap Z Z := {[ 0x401010 := 0x401000 ]}.
Definition monitor : ApiMonitor.t := ApiMonitor.__init__ workspace index.

Definition ret : Opcode := {| va := 0x401010; size := 1; mnem := "ret"; opers := [] |}.
Definition ret_8 : Opcode :=
  {| va := 0x401010; size := 3; mnem := "ret"; opers := [{| imm := 8 |}] |}.

(** A 32-bit machine whose stack holds [ws], with the stack counter on
    word [k] of the stack map. *)
Definition machine (ws : list Z) (k : Z) (pc0 : Z) : Emulator :=
  {| maps := [stack_map ws]; sp := 0x1000 + 4 * k; pc := pc0; imem_psize := 4;
     regs := []; taints := {[ 0x7000 := {| tva := 0x7000; ttype := "import" |} ]};
     vw := workspace |}.

(** A calling convention that returns to the address on top of the stack
    and drops the arguments (stdcall); the result goes to [eax]. *)
Definition stdcall : CallConv :=
  {| execCallReturn := fun rv argc emu =>
       let ra := match getStackValue 0 emu with inr v => v | inl _ => 0 end in
       {| maps := maps emu; sp := sp emu + 4 + 4 * argc; pc := ra;
          imem_psize := imem_psize emu; regs := [("eax", rv)];
          taints := taints emu; vw := vw emu |} |}.

(** The return addresses of the function's three call sites. *)
Definition valid_targets : list Z := [0x402005; 0x402105; 0x402205].

(** Just after a plain [ret] that popped a valid return address. *)
Definition after_valid_ret : Emulator :=
  machine [0; 0; 0; 0x402105; 1; 2; 3; 4; 5; 6; 7; 8; 9; 10; 11; 12] 4 0x402105.

(** Just after a [ret 8] that popped a valid return address from
    [0x1004] and released eight more bytes. *)
Definition after_valid_ret_8 : Emulator :=
  machine [0; 0x402005; 1; 2; 3; 4; 5; 6; 7; 8; 9; 10; 11; 12; 13; 14] 4 0x402005.

(** Just after a plain [ret] that popped a garbage address, with a valid
    return address at stack offset +8. *)
Definition after_bad_ret : Emulator :=
  machine [0; 0; 0; 0xdeadbeef; 0x11111111; 0x22222222; 0x402005; 3;
           4; 5; 6; 7; 8; 9; 10; 11] 4 0xdeadbeef.

(** Just after a plain [ret] that popped a garbage address, with no valid
    return address near the top of the stack. *)
Definition after_lost_ret : Emulator :=
  machine [0; 0; 0; 0xdeadbeef; 1; 2; 3; 4; 5; 6; 7; 8; 9; 10; 11; 12] 4 0xdeadbeef.

(** A machine stopped at the entry of an imported allocator: the return
    address is on top of the stack and each argument slot holds [s]. *)
Definition at_allocator (s : Z) : Emulator :=
  machine [0; 0; 0; 0; 0x402005; s; s; s; 0; 0; 0; 0; 0; 0; 0; 0] 4 0x7000.

Definition call_to (name : string) : CallEvent :=
  {| callname := name; callconv := stdcall; argv := [0; 0; 0] |}.

(** An engine whose every instruction is invalid. *)
Definition faulting_engine : Engine := fun emu => Faulted InvalidInstruction emu.

(** An engine that spins on a jump to itself. *)
Definition spinning_engine : Engine := fun emu =>
  Retired {| va := pc emu; size := 2; mnem := "jmp"; opers := [] |} emu.

(** An engine whose next instruction calls the import at [0x7000],
    resolved to [name]. *)
Definition calling_engine (name : string) : Engine := fun emu =>
  Called {| va := pc emu; size := 5; mnem := "call"; opers := [] |}
    (call_to name)
    {| maps := maps emu; sp := sp emu; pc := 0x7000; imem_psize := imem_psize emu;
       regs := regs emu; taints := taints emu; vw := vw emu |}.
End Examples.

(** ** Notions the results are stated with *)

Module Heap.
Import RtlAllocateHeapHook.

(** The granted size as the specification words it: the request rounded
    up to a multiple of 4096 and capped at 10 MiB. *)
Definition spec_granted_size (s : Z) : Z :=
  Z.min (((s + 4095) `div` 4096) * 4096) (10 * 1024 * 1024).

(** One allocation as an observer sees it. *)
Record Allocation := {
  requested : Z;      (* the size asked for *)
  base : Z;           (* the address returned *)
  granted : Z;        (* the bytes zeroed at [base] *)
  cursor_after : Z    (* [_heap_addr] when the call is over *)
}.

(** A shim instance serving a sequence of allocation calls, each on the
    emulator state of its moment; a call that raises grants nothing. *)
Fixpoint serve (self : t) (calls : list (Z * Emulator)) : list Allocation :=
  match calls with
  | [] => []
  | (s, emu) :: rest =>
      match _allocate_mem s (self, emu) with
      | ((self', _), inr a) =>
          {| requested := s; base := a;
             granted := match granted_size s with inr g => g | inl _ => 0 end;
             cursor_after := _heap_addr self' |} :: serve self' rest
      | ((self', _), inl _) => serve self' rest
      end
  end.

(** Every allocation served from [self] lies at or above its cursor and
    ends where the cursor then stands. *)
Definition served_from (c : Z) (a : Allocation) : Prop :=
  c <= base a /\ 0 <= granted a /\ (0 < requested a -> 0 < granted a) /\
  cursor_after a = base a + granted a.

(** How an earlier allocation relates to a later one of the same shim. *)
Definition precedes (a1 a2 : Allocation) : Prop :=
  cursor_after a1 <= cursor_after a2 /\
  base a1 <= base a2 /\
  (0 < requested a1 -> base a1 < base a2) /\
  (forall x, ~ (base a1 <= x < base a1 + granted a1 /\
                base a2 <= x < base a2 + granted a2)).
End Heap.

Module Guard.
(** A computation that leaves the state as it found it. *)
Definition readonly {S T} (m : M S T) : Prop := forall s, (m s).1 = s.

(** The emulator as the monitor leaves it when slot [offset] holds the
    valid address [v]. *)
Definition returned_to (v esp offset ps : Z) (emu : Emulator) : Emulator :=
  setStackCounter (esp + offset + ps) (setProgramCounter v emu).

(** The emulator once [_check_return] has applied the operand of a
    [ret imm16]; a plain [ret] has no operand. *)
Definition adjusted (op : Opcode) (emu : Emulator) : Emulator :=
  match opers op with
  | o :: _ => setStackCounter (getStackCounter emu - imm o) emu
  | [] => emu
  end.
End Guard.

Module Run.
(** A computation on the store that leaves the collector object alone. *)
Definition keeps_collector {T} (m : M Store T) : Prop :=
  forall st, delta_collector (m st).1 = delta_collector st.

(** A collector all of whose deltas start from the snapshot [P]. *)
Definition anchored (P : Snapshot) (c : DeltaCollectorHook.t) : Prop :=
  DeltaCollectorHook._pre_snap c = P /\
  Forall (fun d => pre_snap d = P) (DeltaCollectorHook.deltas c).

(** The deltas a call event adds to the collector [c] when the hooks see
    the emulator [emu]: one if the program counter is at an import, none
    otherwise. *)
Definition recorded (c : DeltaCollectorHook.t) (emu : Emulator) : list Delta :=
  if is_import emu (getProgramCounter emu)
  then [{| pre_snap := DeltaCollectorHook._pre_snap c;
           post_snap := make_snapshot emu |}]
  else [].
End Run.

Module Frame.
(** Two emulators that differ at most in the stack counter and the program
    counter. *)
Definition same_machine (e e' : Emulator) : Prop :=
  maps e' = maps e /\ imem_psize e' = imem_psize e /\ regs e' = regs e /\
  taints e' = taints e /\ vw e' = vw e.

(** A computation that changes at most the stack counter and the program
    counter of the emulator. *)
Definition keeps_machine {T} (m : M Emulator T) : Prop :=
  forall s, same_machine s (m s).1.
End Frame.

(** ** The simulated heap *)

(** Unfolds the monad's operations. *)
Ltac unfold_monad :=
  unfold mbind, M_bind, Res_bind, mret, M_ret, Res_ret, raise, get, put,
    modify, ask, update, on_snd, try_except_Exception in *.

Module HeapFacts.
Import RtlAllocateHeapHook Heap.

Lemma round_0x1000 i :
  round i 0x1000 =
  inr (if decide (i `mod` 4096 = 0) then i else i + (i - i `mod` 4096)).
Proof.
  unfold round. destruct (decide (4096 = 0)) as [?|_]; [lia|].
  by destruct (decide (i `mod` 4096 = 0)).
Qed.

Lemma granted_size_bounds s :
  0 <= s ->
  exists g, granted_size s = inr g /\ 0 <= g <= MAX_ALLOCATION_SIZE /\ (0 < s -> 0 < g).
Proof.
  intros Hs. unfold granted_size. rewrite round_0x1000. unfold_monad.
  pose proof (Z.mod_pos_bound s 4096 ltac:(lia)) as Hm.
  pose proof (Z.mod_le s 4096 Hs ltac:(lia)) as Hle.
  unfold MAX_ALLOCATION_SIZE.
  eexists; split; [reflexivity|].
  repeat case_decide; lia.
Qed.

(** Below 4096 a positive request is granted as it is, not rounded. *)
Lemma granted_size_small s : 0 < s < 4096 -> granted_size s = inr s.
Proof.
  intros Hs. unfold granted_size. rewrite round_0x1000. unfold_monad.
  rewrite (Z.mod_small s 4096) by lia. unfold MAX_ALLOCATION_SIZE.
  repeat case_decide; f_equal; lia.
Qed.

Lemma write_maps_last a bs ms m :
  in_map a m = true -> is_Some (write_maps a bs (ms ++ [m])).
Proof.
  intros Hin. induction ms as [|m' ms IH]; simpl.
  - rewrite Hin. eauto.
  - destruct (in_map a m'); [eauto|].
    destruct IH as [r ->]. simpl. eauto.
Qed.

Lemma writeMemory_fresh_map a n bs perms fname emu :
  (0 < n)%nat ->
  exists emu', writeMemory a bs (addMemoryMap a perms fname (replicate n x00) emu) = inr emu'.
Proof.
  intros Hn. unfold writeMemory, addMemoryMap. simpl.
  destruct (write_maps_last a bs (maps emu)
             {| mva := a; msize := Z.of_nat (length (replicate n x00));
                mperms := perms; mfname := fname; mbytes := replicate n x00 |})
    as [ms ->]; [|eauto].
  unfold in_map. simpl. rewrite length_replicate.
  apply andb_true_iff. split; apply bool_decide_eq_true; lia.
Qed.

(** What one call of [_allocate_mem] does when the granted size is known. *)
Lemma _allocate_mem_granted self emu s g :
  granted_size s = inr g -> -4 < g ->
  exists emu',
    writeMemory (_heap_addr self) (replicate (Z.to_nat g) x00)
      (addMemoryMap (_heap_addr self) MM_RWX "[heap allocation]"
         (replicate (Z.to_nat (g + 4)) x00) emu) = inr emu' /\
    _allocate_mem s (self, emu) =
      (({| _heap_addr := _heap_addr self + g |}, emu'), inr (_heap_addr self)).
Proof.
  intros Hg Hpos.
  destruct (writeMemory_fresh_map (_heap_addr self) (Z.to_nat (g + 4))
              (replicate (Z.to_nat g) x00) MM_RWX "[heap allocation]" emu)
    as [emu' Hw]; [lia|].
  exists emu'. split; [done|].
  unfold _allocate_mem. unfold_monad. rewrite Hg. simpl. by rewrite Hw.
Qed.

Lemma serve_from self calls :
  Forall (fun c => 0 <= c.1) calls ->
  Forall (served_from (_heap_addr self)) (serve self calls).
Proof.
  intros Hcalls. revert self.
  induction Hcalls as [|[s emu] calls Hs _ IH]; intros self; simpl; [constructor|].
  simpl in Hs.
  destruct (granted_size_bounds s Hs) as (g & Hg & Hb & Hp).
  destruct (_allocate_mem_granted self emu s g Hg ltac:(lia)) as (emu' & _ & ->).
  rewrite Hg. constructor.
  - unfold served_from; simpl. lia.
  - eapply Forall_impl; [apply IH|].
    intros a (? & ? & ? & ?). unfold served_from in *; simpl in *. lia.
Qed.

End HeapFacts.

(** ** Results on the allocation shim *)

(** C4 (amended).  Within one shim instance serving any sequence of calls
    with non-negative requested sizes, on whatever emulator states: the heap
    cursor never decreases, base addresses never decrease and strictly
    increase after every allocation with a positive requested size, and the
    granted regions [base, base + granted) of distinct allocations share no
    address.  Each allocation starts at or above the cursor the instance
    had at first, and the cursor ends where the granted region ends. *)
Theorem heap_allocations_ordered (self : RtlAllocateHeapHook.t)
    (calls : list (Z * Emulator)) :
  Forall (fun c => 0 <= c.1) calls ->
  StronglySorted Heap.precedes (Heap.serve self calls) /\
  Forall (fun a => RtlAllocateHeapHook._heap_addr self <= Heap.base a /\
                   Heap.cursor_after a = Heap.base a + Heap.granted a)
         (Heap.serve self calls).
Proof.
  intros Hcalls. split.
  - revert self.
    induction Hcalls as [|[s emu] calls Hs Hrest IH]; intros self; simpl; [constructor|].
    simpl in Hs.
    destruct (HeapFacts.granted_size_bounds s Hs) as (g & Hg & Hb & Hp).
    destruct (HeapFacts._allocate_mem_granted self emu s g Hg ltac:(lia))
      as (emu' & _ & ->).
    rewrite Hg. constructor; [apply IH|].
    eapply Forall_impl; [apply (HeapFacts.serve_from _ calls Hrest)|].
    intros a (? & ? & ? & ?). unfold Heap.precedes; simpl in *.
    repeat split; lia.
  - eapply Forall_impl; [apply (HeapFacts.serve_from self calls Hcalls)|].
    intros a (? & ? & ? & ?). by split.
Qed.

(** C4, on three calls of sizes 10, 5000 and 0. *)
Lemma heap_allocations_ordered_witness :
  let calls := [(10, Examples.at_allocator 10); (5000, Examples.at_allocator 5000);
                (0, Examples.at_allocator 0)] in
  Forall (fun c => 0 <= c.1) calls /\
  (StronglySorted Heap.precedes
     (Heap.serve RtlAllocateHeapHook.__init__ calls) /\
   Forall (fun a => RtlAllocateHeapHook._heap_addr RtlAllocateHeapHook.__init__
                    <= Heap.base a /\
                    Heap.cursor_after a = Heap.base a + Heap.granted a)
     (Heap.serve RtlAllocateHeapHook.__init__ calls)).
Proof.
  intros calls.
  assert (H : Forall (fun c => 0 <= c.1) calls)
    by (repeat constructor; simpl; lia).
  split; [exact H|].
  exact (heap_allocations_ordered RtlAllocateHeapHook.__init__ calls H).
Defined.

(** C4 as stated fails: two successive allocations of requested size 0
    return the same base address, so base addresses do not strictly
    increase.  Moreover the hooks of a run are three shim instances, each
    with a cursor of its own: a [msvcrt.malloc] call and a
    [kernel32.LocalAlloc] call of one run both return [0x69690000]. *)
Lemma heap_base_repeats_on_zero_size :
  let allocs := Heap.serve RtlAllocateHeapHook.__init__
                  [(0, Examples.at_allocator 0); (0, Examples.at_allocator 0)] in
  let hooks := _hooks (make_driver Examples.monitor) in
  let st1 := (run_hooks hooks (Examples.call_to "msvcrt.malloc")
                (initial_store (Examples.at_allocator 64))).1 in
  let st2 := (run_hooks hooks (Examples.call_to "kernel32.LocalAlloc")
                (set_emu (Examples.at_allocator 64) st1)).1 in
  Heap.base <$> allocs = [0x69690000; 0x69690000] /\
  ~ StronglySorted (fun a1 a2 => Heap.base a1 < Heap.base a2) allocs /\
  regs (emu_of st1) = [("eax", 0x69690000)] /\
  regs (emu_of st2) = [("eax", 0x69690000)].
Proof.
  intros allocs hooks st1 st2.
  assert (Hb : Heap.base <$> allocs = [0x69690000; 0x69690000])
    by (vm_compute; reflexivity).
  split; [exact Hb|]. split; [|split; vm_compute; reflexivity].
  intros Hs.
  destruct allocs as [|a1 [|a2 [|? ?]]]; try discriminate Hb.
  injection Hb as H1 H2.
  apply StronglySorted_inv in Hs as [_ Hall].
  apply Forall_cons in Hall as [Hlt _]. lia.
Qed.

(** C1 (code at the failing input).  A request of 10 bytes is granted 10
    bytes, where the claim has 4096: [round] returns [i + (i - i % size)]
    for an [i] that is not a multiple.  Both the primary allocator (size at
    stack offset 0xC) and a convenience allocator (size at 0x8) advance
    their cursor by 10. *)
Theorem allocator_grants_10_for_10 :
  round 10 0x1000 = inr 10 /\
  RtlAllocateHeapHook.granted_size 10 = inr 10 /\
  Heap.spec_granted_size 10 = 4096 /\
  (RtlAllocateHeapHook.hook (Examples.call_to "ntdll.RtlAllocateHeap")
     (RtlAllocateHeapHook.__init__, Examples.at_allocator 10)).1.1
    = {| RtlAllocateHeapHook._heap_addr := 0x69690000 + 10 |} /\
  (AllocateHeap.hook (Examples.call_to "kernel32.LocalAlloc")
     (AllocateHeap.__init__, Examples.at_allocator 10)).1.1
    = {| RtlAllocateHeapHook._heap_addr := 0x69690000 + 10 |}.
Proof. repeat split; vm_compute; reflexivity. Qed.

(** C2 (code at the failing input).  Two allocations of 10 and 5000 bytes
    from a cursor of 0x69690000 return 0x69690000 and then 0x6969000A, not
    0x69691000: the first call advances the cursor by 10, and the second
    grants 9096 bytes. *)
Theorem scenario_A_bases :
  let allocs := Heap.serve RtlAllocateHeapHook.__init__
                  [(10, Examples.at_allocator 10); (5000, Examples.at_allocator 5000)] in
  Heap.base <$> allocs = [0x69690000; 0x6969000A] /\
  Heap.granted <$> allocs = [10; 9096] /\
  0x6969000A <> 0x69691000.
Proof. repeat split; [vm_compute; reflexivity .. | lia]. Qed.

(** C9.  Whatever size the stack holds at offset 4, the [msvcrt.malloc]
    shim handles the call, zeroes exactly 256 bytes at the cursor, returns
    the cursor as the base address and advances the cursor by 256; the
    requested size has no part in the result. *)
Theorem malloc_grants_256 (ev : CallEvent) (self : MallocHeap.t) (emu : Emulator)
    (s : Z) :
  callname ev = "msvcrt.malloc" ->
  getStackValue 0x4 emu = inr s ->
  RtlAllocateHeapHook.granted_size 0x100 = inr 256 /\
  exists emu',
    writeMemory (RtlAllocateHeapHook._heap_addr self) (replicate 256 x00)
      (addMemoryMap (RtlAllocateHeapHook._heap_addr self) MM_RWX "[heap allocation]"
         (replicate 260 x00) emu) = inr emu' /\
    MallocHeap.hook ev (self, emu) =
      (({| RtlAllocateHeapHook._heap_addr := RtlAllocateHeapHook._heap_addr self + 256 |},
        execCallReturn (callconv ev) (RtlAllocateHeapHook._heap_addr self)
          (len (argv ev)) emu'),
       inr ReturnsTrue).
Proof.
  intros Hname Hread.
  assert (Hg : RtlAllocateHeapHook.granted_size 0x100 = inr 256)
    by (vm_compute; reflexivity).
  split; [exact Hg|].
  destruct (HeapFacts._allocate_mem_granted self emu 0x100 256 Hg ltac:(lia))
    as (emu' & Hw & Halloc).
  exists emu'. split; [exact Hw|].
  unfold MallocHeap.hook. rewrite decide_True by exact Hname.
  unfold_monad. rewrite Hread. simpl.
  unfold_monad. by rewrite Halloc.
Qed.

(** C9, on a machine whose stack asks for 5000 bytes. *)
Lemma malloc_grants_256_witness :
  callname (Examples.call_to "msvcrt.malloc") = "msvcrt.malloc" /\
  getStackValue 0x4 (Examples.at_allocator 5000) = inr 5000 /\
  exists emu',
    MallocHeap.hook (Examples.call_to "msvcrt.malloc")
      (MallocHeap.__init__, Examples.at_allocator 5000) =
      (({| RtlAllocateHeapHook._heap_addr := 0x69690000 + 256 |}, emu'), inr ReturnsTrue).
Proof.
  assert (Hn : callname (Examples.call_to "msvcrt.malloc") = "msvcrt.malloc")
    by reflexivity.
  assert (Hr : getStackValue 0x4 (Examples.at_allocator 5000) = inr 5000)
    by (vm_compute; reflexivity).
  split; [exact Hn|]. split; [exact Hr|].
  destruct (malloc_grants_256 _ MallocHeap.__init__ _ 5000 Hn Hr)
    as (_ & emu' & _ & Hhook).
  eexists. exact Hhook.
Defined.

(** ** The return-address monitor: facts *)

Module MonitorFacts.
Import ApiMonitor Guard.

Lemma readonly_ret {S T} (x : T) : readonly (mret x : M S T).
Proof. done. Qed.

Lemma readonly_ask {S T} (f : S -> Res T) : readonly (ask f).
Proof. done. Qed.

Lemma readonly_bind {S A B} (m : M S A) (f : A -> M S B) :
  readonly m -> (forall x, readonly (f x)) -> readonly (m ≫= f).
Proof.
  intros Hm Hf s. unfold_monad. specialize (Hm s).
  destruct (m s) as [s' [e|x]]; simpl in *; subst; [done|apply Hf].
Qed.

Lemma readonly_for_each {S A} (xs : list A) (body : A -> M S unit) :
  (forall x, readonly (body x)) -> readonly (for_each xs body).
Proof.
  intros Hb. induction xs as [|x xs IH]; simpl; [done|].
  apply readonly_bind; [apply Hb|done].
Qed.

Lemma readonly_dumpStack : readonly dumpStack.
Proof.
  apply readonly_bind; [apply readonly_ask|]. intros offsets.
  apply readonly_for_each. intros i.
  apply readonly_bind; [apply readonly_ask|done].
Qed.

Lemma readonly_return_vas_loop cs acc : readonly (return_vas_loop cs acc).
Proof.
  revert acc. induction cs as [|c cs IH]; intros acc; simpl; [done|].
  apply readonly_bind; [apply readonly_ask|]. intros op. apply IH.
Qed.

Lemma readonly__get_return_vas self f : readonly (_get_return_vas self f).
Proof. apply readonly_return_vas_loop. Qed.

(** A read-only computation is its result on an unchanged state. *)
Lemma readonly_run {S T} (m : M S T) s : readonly m -> m s = (s, (m s).2).
Proof. intros H. specialize (H s). by destruct (m s); simpl in *; subst. Qed.

(** The offsets of the search window, for any pointer size but 0. *)
Lemma xrange_window ps :
  ps <> 0 ->
  xrange 0 (ps * NUM_ADDRESSES) ps = inr [0; ps; 2 * ps; 3 * ps].
Proof.
  intros Hps. unfold xrange, NUM_ADDRESSES.
  rewrite decide_False by done.
  assert (Hn : (if decide (0 < ps)
                then (ps * 4 - 0 + ps - 1) `div` ps
                else (0 - ps * 4 - ps - 1) `div` (- ps)) = 4).
  { case_decide.
    - symmetry. apply (Z.div_unique_pos _ _ 4 (ps - 1)); lia.
    - symmetry. apply (Z.div_unique_pos _ _ 4 (- ps - 1)); lia. }
  rewrite Hn. simpl. f_equal. repeat (f_equal; try lia).
Qed.

(** The scan stops at the first slot that holds a valid address. *)
Lemma scan_stack_found esp ps R offsets (k : nat) off v emu :
  offsets !! k = Some off ->
  (forall (j : nat) oj, (j < k)%nat -> offsets !! j = Some oj ->
     exists w, getStackValue oj emu = inr w /\ w ∉ R) ->
  getStackValue off emu = inr v -> v ∈ R ->
  exists r, r <> inr false /\
    scan_stack esp ps R offsets emu = (returned_to v esp off ps emu, r).
Proof.
  revert k. induction offsets as [|o offsets IH]; intros k Hk Hpre Hv HR; [done|].
  destruct k as [|k]; simpl in Hk.
  - injection Hk as ->. simpl. unfold_monad. rewrite Hv.
    rewrite decide_True by done.
    rewrite (readonly_run dumpStack _ readonly_dumpStack).
    destruct (dumpStack _).2 as [e|[]]; simpl; eexists; (split; [|reflexivity]); done.
  - destruct (Hpre 0%nat o ltac:(lia) eq_refl) as (w & Hw & HwR).
    simpl. unfold_monad. rewrite Hw. rewrite decide_False by done.
    apply (IH k); [done| |done|done].
    intros j oj Hj Hoj. apply (Hpre (S j) oj); [lia|done].
Qed.

(** Without a valid address in the scanned slots the scan changes
    nothing and does not return from the loop. *)
Lemma scan_stack_not_found esp ps R offsets emu :
  (forall off v, off ∈ offsets -> getStackValue off emu = inr v -> v ∉ R) ->
  exists r, r <> inr true /\ scan_stack esp ps R offsets emu = (emu, r).
Proof.
  induction offsets as [|o offsets IH]; intros Hno; simpl.
  - by exists (inr false).
  - unfold_monad. destruct (getStackValue o emu) as [e|w] eqn:Hw.
    + by exists (inl e).
    + rewrite decide_False; [|apply (Hno o w); [left|done]].
      apply IH. intros off v Hoff. apply Hno. by right.
Qed.

Lemma window_lookup ps (k : nat) :
  (k < 4)%nat -> [0; ps; 2 * ps; 3 * ps] !! k = Some (Z.of_nat k * ps).
Proof.
  intros Hk. destruct k as [|[|[|[|k]]]]; simpl; try (f_equal; lia).
Qed.

Lemma window_lookup_inv ps (k : nat) off :
  [0; ps; 2 * ps; 3 * ps] !! k = Some off -> (k < 4)%nat /\ off = Z.of_nat k * ps.
Proof.
  intros Hk. destruct k as [|[|[|[|k]]]]; simpl in Hk; try done;
    injection Hk as <-; split; lia.
Qed.

(** [_fix_return] when slot [k] of the window is the first to hold a
    valid address: whether or not the closing dump raises, the program
    counter and the stack counter are set. *)
Lemma _fix_return_found ra R emu (k : nat) v :
  (dumpStack emu).2 = inr tt ->
  imem_psize emu <> 0 ->
  (k < 4)%nat ->
  (forall j : nat, (j < k)%nat ->
     exists w, getStackValue (Z.of_nat j * imem_psize emu) emu = inr w /\ w ∉ R) ->
  getStackValue (Z.of_nat k * imem_psize emu) emu = inr v ->
  v ∈ R ->
  exists r,
    _fix_return ra R emu =
      (returned_to v (getStackCounter emu) (Z.of_nat k * imem_psize emu)
         (imem_psize emu) emu, r).
Proof.
  intros Hdump Hps Hk Hpre Hv HR.
  unfold _fix_return.
  unfold mbind at 1. unfold M_bind.
  rewrite (readonly_run dumpStack emu readonly_dumpStack), Hdump.
  unfold_monad. unfold getPointerSize. rewrite (xrange_window _ Hps).
  destruct (scan_stack_found (getStackCounter emu) (imem_psize emu) R
              [0; imem_psize emu; 2 * imem_psize emu; 3 * imem_psize emu]
              k (Z.of_nat k * imem_psize emu) v emu) as (r & Hr & ->);
    [by apply window_lookup| |done|done|].
  - intros j oj Hj Hoj. apply window_lookup_inv in Hoj as [_ ->]. by apply Hpre.
  - destruct r as [e|[|]]; [eauto|eauto|done].
Qed.

(** [_fix_return] when no slot of the window holds a valid address, or
    a stack read fails on the way: the emulator stays as it was. *)
Lemma _fix_return_not_found ra R emu :
  (forall (j : nat) w, (j < 4)%nat ->
     getStackValue (Z.of_nat j * imem_psize emu) emu = inr w -> w ∉ R) ->
  exists e, _fix_return ra R emu = (emu, inl e).
Proof.
  intros Hno.
  unfold _fix_return.
  unfold mbind at 1. unfold M_bind.
  rewrite (readonly_run dumpStack emu readonly_dumpStack).
  destruct (dumpStack emu).2 as [e|[]]; [eauto|].
  unfold_monad. unfold getPointerSize.
  destruct (decide (imem_psize emu = 0)) as [Hz|Hps].
  { rewrite Hz. simpl. eauto. }
  rewrite (xrange_window _ Hps).
  destruct (scan_stack_not_found (getStackCounter emu) (imem_psize emu) R
              [0; imem_psize emu; 2 * imem_psize emu; 3 * imem_psize emu] emu)
    as (r & Hr & ->).
  { intros off w Hoff Hw. apply list_elem_of_lookup in Hoff as [j Hj].
    apply window_lookup_inv in Hj as [Hj ->]. by apply (Hno j). }
  destruct r as [e|[|]]; [eauto|done|].
  rewrite (readonly_run dumpStack emu readonly_dumpStack).
  destruct (dumpStack emu).2 as [e|[]]; eauto.
Qed.

(** [_check_return] once the function and its return addresses are
    resolved: adjust, read the word below the stack counter, check. *)
Lemma _check_return_run self op f R emu :
  function_index self !! va op = Some f ->
  (_get_return_vas self f emu).2 = inr R ->
  _check_return self op emu =
    match getStackValue (-4) (adjusted op emu) with
    | inl e => (adjusted op emu, inl e)
    | inr ra =>
        if decide (ra ∈ R) then (adjusted op emu, inr tt)
        else _fix_return ra R (adjusted op emu)
    end.
Proof.
  intros Hf HR. unfold _check_return.
  unfold mbind at 1. unfold M_bind, ask. rewrite Hf.
  unfold mbind at 1. unfold M_bind.
  rewrite (readonly_run _ emu (readonly__get_return_vas self f)), HR.
  unfold adjusted. unfold_monad.
  destruct (opers op) as [|o os]; simpl.
  - destruct (getStackValue (-4) emu) as [e|ra]; [done|].
    destruct (decide (ra ∈ R)).
    + by rewrite decide_False by (intros Hn; by apply Hn).
    + by rewrite decide_True by done.
  - destruct (getStackValue (-4) _) as [e|ra]; [done|].
    destruct (decide (ra ∈ R)).
    + by rewrite decide_False by (intros Hn; by apply Hn).
    + by rewrite decide_True by done.
Qed.
End MonitorFacts.

(** ** Results on the return-address monitor *)

(** C3 (amended).  For a return instruction that carries an immediate
    operand, once the owning function and its valid return addresses are
    resolved, [_check_return] first moves the stack counter down by the
    immediate (sp := sp - imm), then reads the observed return address at
    offset -4 from the moved stack counter and checks it against the valid
    set: a valid address ends the check, an invalid one goes to
    [_fix_return], both on the moved stack counter. *)
Theorem check_return_moves_stack_down (self : ApiMonitor.t) (op : Opcode)
    (o : Operand) (os : list Operand) (f : Z) (R : list Z) (emu : Emulator) :
  opers op = o :: os ->
  ApiMonitor.function_index self !! va op = Some f ->
  (ApiMonitor._get_return_vas self f emu).2 = inr R ->
  let emu1 := setStackCounter (getStackCounter emu - imm o) emu in
  getStackCounter emu1 = getStackCounter emu - imm o /\
  ApiMonitor._check_return self op emu =
    match getStackValue (-4) emu1 with
    | inl e => (emu1, inl e)
    | inr ra =>
        if decide (ra ∈ R) then (emu1, inr tt)
        else ApiMonitor._fix_return ra R emu1
    end.
Proof.
  intros Hop Hf HR emu1. split; [done|].
  rewrite (MonitorFacts._check_return_run self op f R emu Hf HR).
  unfold Guard.adjusted. by rewrite Hop.
Qed.

(** C3, on a [ret 8] retired with the stack counter at [0x1010]. *)
Lemma check_return_moves_stack_down_witness :
  getStackCounter (setStackCounter (getStackCounter Examples.after_valid_ret_8 - 8)
                     Examples.after_valid_ret_8) = 0x1008 /\
  ApiMonitor._check_return Examples.monitor Examples.ret_8 Examples.after_valid_ret_8 =
    (setStackCounter 0x1008 Examples.after_valid_ret_8, inr tt).
Proof.
  destruct (check_return_moves_stack_down Examples.monitor Examples.ret_8
              {| imm := 8 |} [] 0x401000 Examples.valid_targets
              Examples.after_valid_ret_8 eq_refl)
    as [Hsp Hrun]; [vm_compute; reflexivity .. |].
  split; [exact Hsp|]. rewrite Hrun. vm_compute. reflexivity.
Defined.

(** C3 as stated fails: after a [ret 8] retired at stack counter [0x1010]
    the monitor reads with the stack counter at [0x1008], below where it
    was, and not at [0x1018]; the word it then finds at offset -4 is the
    valid return address, which it would not find from [0x1018]. *)
Lemma ret_imm_does_not_advance_stack :
  let emu := Examples.after_valid_ret_8 in
  let r := ApiMonitor._check_return Examples.monitor Examples.ret_8 emu in
  getStackCounter emu = 0x1010 /\
  getStackCounter r.1 = 0x1008 /\
  getStackCounter r.1 <> getStackCounter emu + 8 /\
  getStackValue (-4) r.1 = inr 0x402005 /\
  getStackValue (-4) (setStackCounter (getStackCounter emu + 8) emu) = inr 4.
Proof.
  intros emu r.
  assert (Hr : getStackCounter r.1 = 0x1008) by (vm_compute; reflexivity).
  repeat split; try (vm_compute; reflexivity).
  rewrite Hr. vm_compute. discriminate.
Qed.

(** What [posthook] computes on a resolved return instruction, as the
    source is written.  Let [emu1] be the emulator after [_check_return]
    has moved the stack counter down by the instruction's immediate
    operand ([emu1] is the emulator itself for a plain [ret]), and [ra] the
    word read at offset -4.  (a) If [ra] is in [R], [posthook] ends on
    [emu1].  (b) If [ra] is not in [R], the stack dump reads succeed, and
    slot [k] (k < 4) of the pointer-sized slots from the top of the stack
    is the first to hold an address [v] of [R], [posthook] sets the program
    counter to [v] and the stack counter just past slot [k].  (c) If [ra]
    is not in [R] and no readable slot of the four holds an address of
    [R], [posthook] ends on [emu1].  For a plain [ret] this is the
    behaviour the docstring of [_check_return] describes; for a [ret imm16]
    the source never moves the stack counter back. *)
Theorem posthook_guards_return (self : ApiMonitor.t) (op : Opcode) (endpc : Z)
    (f : Z) (R : list Z) (ra : Z) (emu : Emulator) :
  mnem op = "ret" ->
  ApiMonitor.function_index self !! va op = Some f ->
  (ApiMonitor._get_return_vas self f emu).2 = inr R ->
  let emu1 := Guard.adjusted op emu in
  let ps := getPointerSize emu1 in
  getStackValue (-4) emu1 = inr ra ->
  (ra ∈ R -> ApiMonitor.posthook self op endpc emu = (emu1, inr tt)) /\
  (ra ∉ R ->
   forall (k : nat) (v : Z),
     (ApiMonitor.dumpStack emu1).2 = inr tt ->
     ps <> 0 ->
     (k < 4)%nat ->
     (forall j : nat, (j < k)%nat ->
        exists w, getStackValue (Z.of_nat j * ps) emu1 = inr w /\ w ∉ R) ->
     getStackValue (Z.of_nat k * ps) emu1 = inr v ->
     v ∈ R ->
     ApiMonitor.posthook self op endpc emu =
       (setStackCounter (getStackCounter emu1 + Z.of_nat k * ps + ps)
          (setProgramCounter v emu1), inr tt)) /\
  (ra ∉ R ->
   (forall (j : nat) (w : Z), (j < 4)%nat ->
      getStackValue (Z.of_nat j * ps) emu1 = inr w -> w ∉ R) ->
   ApiMonitor.posthook self op endpc emu = (emu1, inr tt)).
Proof.
  intros Hret Hf HR emu1 ps Hra.
  assert (Hpost : ApiMonitor.posthook self op endpc emu =
                  try_except_Exception (ApiMonitor._check_return self op) emu).
  { unfold ApiMonitor.posthook. by rewrite decide_True by done. }
  rewrite Hpost. unfold try_except_Exception.
  rewrite (MonitorFacts._check_return_run self op f R emu Hf HR).
  fold emu1. rewrite Hra.
  split; [|split].
  - intros Hin. by rewrite decide_True by done.
  - intros Hnot k v Hdump Hps Hk Hpre Hv HvR.
    rewrite decide_False by done.
    destruct (MonitorFacts._fix_return_found ra R emu1 k v Hdump Hps Hk Hpre Hv HvR)
      as (r & ->).
    unfold Guard.returned_to. by destruct r as [e|[]].
  - intros Hnot Hno.
    rewrite decide_False by done.
    by destruct (MonitorFacts._fix_return_not_found ra R emu1 Hno) as (e & ->).
Qed.

(** [posthook] after a plain [ret], on three machines: a valid return, a
    garbage return with a valid address at stack offset +8 (the stack
    counter goes from [0x1010] to [0x101C]), and a garbage return with no
    valid address in the window. *)
Lemma posthook_guards_return_witness :
  ApiMonitor.posthook Examples.monitor Examples.ret 0x402105 Examples.after_valid_ret
    = (Examples.after_valid_ret, inr tt) /\
  ApiMonitor.posthook Examples.monitor Examples.ret 0xdeadbeef Examples.after_bad_ret
    = (setStackCounter 0x101C (setProgramCounter 0x402005 Examples.after_bad_ret),
       inr tt) /\
  ApiMonitor.posthook Examples.monitor Examples.ret 0xdeadbeef Examples.after_lost_ret
    = (Examples.after_lost_ret, inr tt).
Proof.
  split; [|split].
  - destruct (posthook_guards_return Examples.monitor Examples.ret 0x402105
                0x401000 Examples.valid_targets 0x402105 Examples.after_valid_ret
                eq_refl eq_refl) as (Ha & _ & _); [vm_compute; reflexivity ..|].
    apply Ha. compute_done.
  - destruct (posthook_guards_return Examples.monitor Examples.ret 0xdeadbeef
                0x401000 Examples.valid_targets 0xdeadbeef Examples.after_bad_ret
                eq_refl eq_refl) as (_ & Hb & _); [vm_compute; reflexivity ..|].
    rewrite (Hb ltac:(compute_done) 2%nat 0x402005).
    + vm_compute. reflexivity.
    + vm_compute. reflexivity.
    + vm_compute. discriminate.
    + lia.
    + intros j Hj. destruct j as [|[|j]]; [| |lia].
      * exists 0x11111111. split; [vm_compute; reflexivity|compute_done].
      * exists 0x22222222. split; [vm_compute; reflexivity|compute_done].
    + vm_compute. reflexivity.
    + compute_done.
  - destruct (posthook_guards_return Examples.monitor Examples.ret 0xdeadbeef
                0x401000 Examples.valid_targets 0xdeadbeef Examples.after_lost_ret
                eq_refl eq_refl) as (_ & _ & Hc); [vm_compute; reflexivity ..|].
    apply Hc; [compute_done|].
    intros j w Hj. destruct j as [|[|[|[|j]]]]; [| | | |lia];
      intros Hw; vm_compute in Hw; injection Hw as <-; compute_done.
Defined.

(** C5 (code at the failing input).  After a [ret 8] whose observed
    return address is in the valid set, the property and the docstring of
    [_check_return] (do nothing, if return address is valid) have the
    machine unchanged; the code has changed it: [_check_return] moved the
    stack counter from [0x1010] down to [0x1008] to read the return
    address and never moves it back. *)
Lemma posthook_moves_stack_on_valid_ret_imm :
  let emu := Examples.after_valid_ret_8 in
  let r := ApiMonitor.posthook Examples.monitor Examples.ret_8 0x402005 emu in
  (ApiMonitor._get_return_vas Examples.monitor 0x401000 emu).2
    = inr Examples.valid_targets /\
  getStackValue (-4) (Guard.adjusted Examples.ret_8 emu) = inr 0x402005 /\
  0x402005 ∈ Examples.valid_targets /\
  getStackCounter emu = 0x1010 /\
  getStackCounter r.1 = 0x1008 /\
  r.1 <> emu.
Proof.
  intros emu r.
  assert (Hr : getStackCounter r.1 = 0x1008) by (vm_compute; reflexivity).
  repeat split; try (vm_compute; reflexivity); [compute_done|].
  intros Heq. rewrite Heq in Hr. vm_compute in Hr. discriminate.
Qed.

(** ** The driver and the collector: facts *)

Module RunFacts.
Import Run.

Lemma keeps_ret {T} (x : T) : keeps_collector (mret x).
Proof. done. Qed.

Lemma keeps_bind {A B} (m : M Store A) (f : A -> M Store B) :
  keeps_collector m -> (forall x, keeps_collector (f x)) -> keeps_collector (m ≫= f).
Proof.
  intros Hm Hf st. unfold_monad. specialize (Hm st).
  destruct (m st) as [st' [e|x]]; simpl in *; [done|].
  by rewrite Hf.
Qed.

Lemma keeps_for_each {A} (xs : list A) (body : A -> M Store unit) :
  (forall x, keeps_collector (body x)) -> keeps_collector (for_each xs body).
Proof.
  intros Hb. induction xs as [|x xs IH]; simpl; [done|].
  apply keeps_bind; [apply Hb|done].
Qed.

Lemma keeps_on_emu {T} (m : M Emulator T) : keeps_collector (on_emu m).
Proof. intros st. unfold on_emu. by destruct (m (emu_of st)). Qed.

Lemma keeps_bound {H T} (rd : Store -> H) (wr : H -> Store -> Store)
    (m : M (H * Emulator) T) :
  (forall h st, delta_collector (wr h st) = delta_collector st) ->
  keeps_collector (bound rd wr m).
Proof.
  intros Hwr st. unfold bound.
  destruct (m (rd st, emu_of st)) as [[h e] r]. simpl. apply Hwr.
Qed.

Lemma keeps_run_hooks hooks ev :
  Forall (fun h : Hook => keeps_collector (h ev)) hooks ->
  keeps_collector (run_hooks hooks ev).
Proof.
  induction 1 as [|h hooks Hh _ IH]; intros st; simpl; [done|].
  specialize (Hh st).
  destruct (h ev st) as [st' [e|[]]]; simpl in *.
  - destruct e; simpl; try done. by rewrite IH.
  - done.
  - by rewrite IH.
Qed.

Lemma keeps_monitors mons op endpc :
  keeps_collector
    (for_each mons (fun mon => on_emu (ApiMonitor.posthook mon op endpc))).
Proof. apply keeps_for_each. intros mon. apply keeps_on_emu. Qed.

(** [DeltaCollectorHook.hook] in one equation. *)
Lemma collector_hook_run ev self emu :
  DeltaCollectorHook.hook ev (self, emu) =
    (({| DeltaCollectorHook._pre_snap := DeltaCollectorHook._pre_snap self;
         DeltaCollectorHook.deltas :=
           DeltaCollectorHook.deltas self ++ recorded self emu |}, emu),
     inr ReturnsNone).
Proof.
  unfold DeltaCollectorHook.hook, recorded. unfold_monad.
  destruct (is_import emu (getProgramCounter emu)); simpl.
  - done.
  - rewrite app_nil_r. by destruct self.
Qed.

(** The hooks registered after the collector leave it alone. *)
Lemma later_hooks_keep_collector ev :
  Forall (fun h : Hook => keeps_collector (h ev))
    [get_process_heap_hook; rtl_allocate_heap_hook; allocate_heap_hook;
     malloc_heap_hook; exit_process_hook].
Proof. repeat constructor; by apply keeps_bound. Qed.

Lemma run_hooks_cons (h : Hook) rest ev st :
  run_hooks (h :: rest) ev st =
    match h ev st with
    | (st', inr ReturnsTrue) => (st', inr true)
    | (st', inr ReturnsNone) => run_hooks rest ev st'
    | (st', inl UnsupportedFunction) => run_hooks rest ev st'
    | (st', inl e) => (st', inl e)
    end.
Proof. done. Qed.

(** The collector after the whole chain has seen a call event. *)
Lemma run_hooks_collector mon ev st :
  delta_collector (run_hooks (_hooks (make_driver mon)) ev st).1 =
    {| DeltaCollectorHook._pre_snap := DeltaCollectorHook._pre_snap (delta_collector st);
       DeltaCollectorHook.deltas :=
         DeltaCollectorHook.deltas (delta_collector st)
         ++ recorded (delta_collector st) (emu_of st) |}.
Proof.
  change (_hooks (make_driver mon))
    with (delta_collector_hook ::
          [get_process_heap_hook; rtl_allocate_heap_hook; allocate_heap_hook;
           malloc_heap_hook; exit_process_hook]).
  rewrite run_hooks_cons. unfold delta_collector_hook at 1, bound, compose.
  rewrite collector_hook_run.
  by rewrite (keeps_run_hooks _ ev (later_hooks_keep_collector ev)).
Qed.

(** The collector after one step of the driver. *)
Lemma stepi_collector engine mon st :
  delta_collector (stepi engine (make_driver mon) st).1 =
    match engine (emu_of st) with
    | Called op ev emu' =>
        {| DeltaCollectorHook._pre_snap :=
             DeltaCollectorHook._pre_snap (delta_collector st);
           DeltaCollectorHook.deltas :=
             DeltaCollectorHook.deltas (delta_collector st)
             ++ recorded (delta_collector st) emu' |}
    | _ => delta_collector st
    end.
Proof.
  unfold stepi. unfold mbind at 1. unfold M_bind, get.
  destruct (engine (emu_of st)) as [op emu'|op ev emu'|e emu'].
  - unfold mbind, M_bind, modify.
    by rewrite (keeps_monitors _ op (pc emu')).
  - unfold mbind at 1. unfold M_bind, modify.
    unfold mbind at 1. unfold M_bind.
    pose proof (run_hooks_collector mon ev (set_emu emu' st)) as Hc.
    destruct (run_hooks _ ev (set_emu emu' st)) as [st' [e|b]];
      simpl in Hc; cbv beta iota.
    + done.
    + by rewrite (keeps_monitors _ op (pc emu')).
  - done.
Qed.

Lemma anchored_step P c emu :
  anchored P c ->
  anchored P {| DeltaCollectorHook._pre_snap := DeltaCollectorHook._pre_snap c;
                DeltaCollectorHook.deltas :=
                  DeltaCollectorHook.deltas c ++ recorded c emu |}.
Proof.
  intros [Hp Hd]. split; [done|]. simpl.
  apply Forall_app. split; [done|].
  unfold recorded. destruct (is_import _ _); by repeat constructor.
Qed.

(** Every delta the collector holds during a run starts from the
    snapshot it was created with. *)
Lemma runToVa_anchored engine mon target budget P st :
  anchored P (delta_collector st) ->
  anchored P (delta_collector (runToVa engine (make_driver mon) target budget st).1).
Proof.
  revert st. induction budget as [|budget IH]; intros st Hst; simpl; [done|].
  unfold mbind at 1. unfold M_bind, get.
  destruct (decide (getProgramCounter (emu_of st) = target)); [done|].
  unfold mbind, M_bind.
  pose proof (stepi_collector engine mon st) as Hc.
  destruct (stepi engine (make_driver mon) st) as [st' [e|[]]]; simpl in Hc.
  - simpl. rewrite Hc. destruct (engine (emu_of st)); try done.
    by apply anchored_step.
  - apply IH. rewrite Hc. destruct (engine (emu_of st)); try done.
    by apply anchored_step.
Qed.

(** [emulate_function] in one equation: every [except] clause falls
    through to the same last three lines. *)
Lemma emulate_function_run engine fi fva target budget emu :
  let run := runToVa engine (make_driver (ApiMonitor.__init__ (vw emu) fi)) target
               (Z.to_nat budget) (initial_store emu) in
  emulate_function engine fi fva target budget emu =
    (emu_of run.1,
     inr (DeltaCollectorHook.deltas (delta_collector run.1)
          ++ [{| pre_snap := make_snapshot emu;
                 post_snap := make_snapshot (emu_of run.1) |}])).
Proof.
  intros run. unfold emulate_function. fold run.
  destruct run as [store [e|[]]]; [|done]. by destruct e.
Qed.
End RunFacts.

(** ** Results on the orchestrator and the collector *)

(** C6.  [emulate_function] returns for every engine, function index,
    addresses, budget and emulator, and never raises: its result is the
    deltas the collector holds when the run is over, whichever way the run
    ended, followed by one delta that pairs the snapshot taken before the
    run with the snapshot of the emulator as the run left it. *)
Theorem emulate_function_always_returns (engine : Engine) (fi : gmap Z Z)
    (fva return_address max_instruction_count : Z) (emu : Emulator) :
  let run := runToVa engine (make_driver (ApiMonitor.__init__ (vw emu) fi))
               return_address (Z.to_nat max_instruction_count) (initial_store emu) in
  exists recorded_in_run,
    recorded_in_run = DeltaCollectorHook.deltas (delta_collector run.1) /\
    emulate_function engine fi fva return_address max_instruction_count emu =
      (emu_of run.1,
       inr (recorded_in_run
            ++ [{| pre_snap := make_snapshot emu;
                   post_snap := make_snapshot (emu_of run.1) |}])).
Proof.
  intros run. eexists. split; [reflexivity|].
  apply RunFacts.emulate_function_run.
Qed.

(** A run whose first instruction faults returns the final delta alone. *)
Example first_instruction_faults :
  let emu := Examples.after_bad_ret in
  emulate_function Examples.faulting_engine Examples.index 0x401000 0x402005 1000 emu
    = (emu, inr [{| pre_snap := make_snapshot emu; post_snap := make_snapshot emu |}]).
Proof. vm_compute. reflexivity. Qed.

(** A run that uses up its budget returns the final delta alone. *)
Example budget_exhausted :
  let emu := Examples.after_bad_ret in
  emulate_function Examples.spinning_engine Examples.index 0x401000 0x402005 50 emu
    = (emu, inr [{| pre_snap := make_snapshot emu; post_snap := make_snapshot emu |}]).
Proof. vm_compute. reflexivity. Qed.

(** A run stopped by [ExitProcessHook] returns the delta of the call to the
    import and the final delta, both with the machine at the import. *)
Example stopped_by_exit_process :
  let emu := Examples.after_bad_ret in
  let at_import := setProgramCounter 0x7000 emu in
  emulate_function (Examples.calling_engine "kernel32.ExitProcess") Examples.index
      0x401000 0x402005 1000 emu
    = (at_import,
       inr [{| pre_snap := make_snapshot emu; post_snap := make_snapshot at_import |};
            {| pre_snap := make_snapshot emu; post_snap := make_snapshot at_import |}]).
Proof. vm_compute. reflexivity. Qed.

(** C7.  Every delta [emulate_function] returns, those recorded at calls
    to imports as well as the final one, has as its [pre_snap] the snapshot
    of the emulator taken before the run. *)
Theorem deltas_start_from_initial_snapshot (engine : Engine) (fi : gmap Z Z)
    (fva return_address max_instruction_count : Z) (emu : Emulator) :
  exists deltas,
    (emulate_function engine fi fva return_address max_instruction_count emu).2
      = inr deltas /\
    Forall (fun d => pre_snap d = make_snapshot emu) deltas.
Proof.
  rewrite RunFacts.emulate_function_run. simpl.
  eexists. split; [reflexivity|].
  apply Forall_app. split; [|by repeat constructor].
  apply (RunFacts.runToVa_anchored engine _ return_address _ (make_snapshot emu)).
  split; [done|]. simpl. constructor.
Qed.

(** C8.  An address is classified as imported when it carries a taint of
    type "import".  [DeltaCollectorHook.hook] appends one delta, from its
    initial snapshot to the present state, when the program counter is at
    an imported address, and appends nothing otherwise.  In a step of the
    driver the collector's list grows by that one delta when the step is a
    call whose target is imported, and stays as it is for a call to any
    other address and for any step that is not a call. *)
Theorem delta_recorded_iff_import :
  (forall emu a,
     is_import emu a = true <->
     exists t, getVivTaint emu a = Some t /\ ttype t = "import") /\
  (forall ev self emu,
     DeltaCollectorHook.hook ev (self, emu) =
       ((if is_import emu (getProgramCounter emu)
         then DeltaCollectorHook.append
                {| pre_snap := DeltaCollectorHook._pre_snap self;
                   post_snap := make_snapshot emu |} self
         else self, emu), inr ReturnsNone)) /\
  (forall engine mon st,
     DeltaCollectorHook.deltas (delta_collector (stepi engine (make_driver mon) st).1) =
       DeltaCollectorHook.deltas (delta_collector st)
       ++ match engine (emu_of st) with
          | Called op ev emu' =>
              if is_import emu' (getProgramCounter emu')
              then [{| pre_snap := DeltaCollectorHook._pre_snap (delta_collector st);
                       post_snap := make_snapshot emu' |}]
              else []
          | _ => []
          end).
Proof.
  split; [|split].
  - intros emu a. unfold is_import.
    destruct (getVivTaint emu a) as [t|]; split.
    + intros H%bool_decide_eq_true. eauto.
    + intros (t' & [= <-] & H). by apply bool_decide_eq_true.
    + done.
    + by intros (t' & ? & _).
  - intros ev self emu. unfold DeltaCollectorHook.hook. unfold_monad.
    by destruct (is_import emu (getProgramCounter emu)).
  - intros engine mon st. rewrite RunFacts.stepi_collector.
    destruct (engine (emu_of st)); simpl; try by rewrite app_nil_r.
    done.
Qed.

(** C10.  [DeltaCollectorHook.hook] returns [None] on every call event and
    every state, never [True] and never an exception; so a chain that
    starts with the collector goes on to the hooks registered after it, on
    the store the collector left. *)
Theorem collector_hook_never_claims_call (ev : CallEvent) :
  (forall s, (DeltaCollectorHook.hook ev s).2 = inr ReturnsNone) /\
  (forall rest st,
     run_hooks (delta_collector_hook :: rest) ev st =
       run_hooks rest ev (delta_collector_hook ev st).1).
Proof.
  split.
  - intros [self emu]. by rewrite RunFacts.collector_hook_run.
  - intros rest st. rewrite RunFacts.run_hooks_cons.
    unfold delta_collector_hook, bound, compose.
    by rewrite RunFacts.collector_hook_run.
Qed.

(** A call to the imported [msvcrt.malloc] is both recorded by the
    collector and served by the malloc shim further down the chain. *)
Example malloc_call_recorded_and_served :
  let st := initial_store (Examples.at_allocator 5000) in
  let r := run_hooks (_hooks (make_driver Examples.monitor))
             (Examples.call_to "msvcrt.malloc") st in
  r.2 = inr true /\
  length (DeltaCollectorHook.deltas (delta_collector r.1)) = 1%nat /\
  malloc_heap r.1 = {| RtlAllocateHeapHook._heap_addr := 0x69690000 + 256 |} /\
  regs (emu_of r.1) = [("eax", 0x69690000)].
Proof. repeat split; vm_compute; reflexivity. Qed.

(** ** Further results: rounding and the simulated heap *)

(** X1.  For a positive [size], [round(i, size)] returns a number with
    the residue of [i] modulo [size]; for a non-negative [i] it is never
    below [i]; and it is [i] itself exactly when [i] is a multiple of
    [size] or lies in [0, size). *)
Theorem round_keeps_residue (i size : Z) :
  0 < size ->
  exists r, round i size = inr r /\
    r `mod` size = i `mod` size /\
    (0 <= i -> i <= r) /\
    (r = i <-> i `mod` size = 0 \/ 0 <= i < size).
Proof.
  intros Hs. unfold round. rewrite decide_False by lia.
  pose proof (Z.div_mod i size ltac:(lia)) as Hdm.
  pose proof (Z.mod_pos_bound i size Hs) as Hm.
  destruct (decide (i `mod` size = 0)) as [Hz|Hnz].
  - exists i. repeat split; auto; lia.
  - exists (i + (i - i `mod` size)). split; [done|]. split; [|split].
    + replace (i + (i - i `mod` size)) with (i + (i `div` size) * size) by lia.
      apply Z_mod_plus_full.
    + intros Hi. pose proof (Z.div_pos i size Hi Hs). nia.
    + split.
      * intros Hr. right. assert (Hq : i `div` size = 0) by nia.
        apply Z.div_small_iff in Hq; lia.
      * intros [?|Hi]; [done|]. rewrite Z.mod_small; lia.
Qed.

(** X1, on 5000 and 4096: the result 9096 has the residue 904 of 5000. *)
Lemma round_keeps_residue_witness :
  0 < 4096 /\
  exists r, round 5000 4096 = inr r /\
    r `mod` 4096 = 5000 `mod` 4096 /\
    (0 <= 5000 -> 5000 <= r) /\
    (r = 5000 <-> 5000 `mod` 4096 = 0 \/ 0 <= 5000 < 4096).
Proof.
  assert (H : 0 < 4096) by lia.
  split; [exact H|]. exact (round_keeps_residue 5000 4096 H).
Defined.

(** X2.  For a non-negative request the granted size is never above
    10 MiB and never below the smaller of the request and 10 MiB: what is
    granted covers what was asked for, up to the cap. *)
Theorem granted_size_covers_request (s : Z) :
  0 <= s ->
  exists g, RtlAllocateHeapHook.granted_size s = inr g /\
    Z.min s RtlAllocateHeapHook.MAX_ALLOCATION_SIZE <= g
      <= RtlAllocateHeapHook.MAX_ALLOCATION_SIZE.
Proof.
  intros Hs. unfold RtlAllocateHeapHook.granted_size.
  rewrite HeapFacts.round_0x1000. unfold_monad.
  pose proof (Z.mod_le s 4096 Hs ltac:(lia)) as Hle.
  unfold RtlAllocateHeapHook.MAX_ALLOCATION_SIZE.
  eexists; split; [reflexivity|].
  repeat case_decide; lia.
Qed.

(** X2, on a request of 20 MiB. *)
Lemma granted_size_covers_request_witness :
  0 <= 20971520 /\
  RtlAllocateHeapHook.granted_size 20971520 = inr 10485760.
Proof.
  assert (H : 0 <= 20971520) by lia.
  split; [exact H|].
  destruct (granted_size_covers_request 20971520 H) as (g & Hg & Hb).
  rewrite Hg. f_equal. unfold RtlAllocateHeapHook.MAX_ALLOCATION_SIZE in Hb. lia.
Defined.

(** X3.  [RtlAllocateHeapHook.hook] on a call named "ntdll.RtlAllocateHeap"
    whose size slot at stack offset 0xC reads [s]: it handles the call,
    zeroes the granted bytes at the cursor, hands the old cursor to
    [execCallReturn] with the number of arguments, and advances the cursor
    by the granted size. *)
Theorem rtl_allocate_heap_serves (ev : CallEvent) (self : RtlAllocateHeapHook.t)
    (emu : Emulator) (s g : Z) :
  callname ev = "ntdll.RtlAllocateHeap" ->
  getStackValue 0xC emu = inr s ->
  RtlAllocateHeapHook.granted_size s = inr g ->
  -4 < g ->
  exists emu',
    writeMemory (RtlAllocateHeapHook._heap_addr self) (replicate (Z.to_nat g) x00)
      (addMemoryMap (RtlAllocateHeapHook._heap_addr self) MM_RWX "[heap allocation]"
         (replicate (Z.to_nat (g + 4)) x00) emu) = inr emu' /\
    RtlAllocateHeapHook.hook ev (self, emu) =
      (({| RtlAllocateHeapHook._heap_addr := RtlAllocateHeapHook._heap_addr self + g |},
        execCallReturn (callconv ev) (RtlAllocateHeapHook._heap_addr self)
          (len (argv ev)) emu'),
       inr ReturnsTrue).
Proof.
  intros Hname Hread Hg Hpos.
  destruct (HeapFacts._allocate_mem_granted self emu s g Hg Hpos)
    as (emu' & Hw & Halloc).
  exists emu'. split; [exact Hw|].
  unfold RtlAllocateHeapHook.hook. rewrite decide_True by exact Hname.
  unfold_monad. rewrite Hread. simpl.
  unfold_monad. by rewrite Halloc.
Qed.

(** X3, on a request of 8192 bytes. *)
Lemma rtl_allocate_heap_serves_witness :
  exists emu',
    RtlAllocateHeapHook.hook (Examples.call_to "ntdll.RtlAllocateHeap")
      (RtlAllocateHeapHook.__init__, Examples.at_allocator 8192) =
      (({| RtlAllocateHeapHook._heap_addr := 0x69690000 + 8192 |}, emu'),
       inr ReturnsTrue).
Proof.
  destruct (rtl_allocate_heap_serves (Examples.call_to "ntdll.RtlAllocateHeap")
              RtlAllocateHeapHook.__init__ (Examples.at_allocator 8192) 8192 8192)
    as (emu' & _ & Hhook);
    [reflexivity | vm_compute; reflexivity | vm_compute; reflexivity | lia |].
  eexists. exact Hhook.
Defined.

(** X4.  [AllocateHeap.hook] does the same for the call names
    "kernel32.LocalAlloc", "kernel32.GlobalAlloc" and
    "kernel32.VirtualAlloc", with the size read at stack offset 0x8. *)
Theorem allocate_heap_serves (ev : CallEvent) (self : AllocateHeap.t)
    (emu : Emulator) (s g : Z) :
  callname ev = "kernel32.LocalAlloc" \/ callname ev = "kernel32.GlobalAlloc"
    \/ callname ev = "kernel32.VirtualAlloc" ->
  getStackValue 0x8 emu = inr s ->
  RtlAllocateHeapHook.granted_size s = inr g ->
  -4 < g ->
  exists emu',
    writeMemory (RtlAllocateHeapHook._heap_addr self) (replicate (Z.to_nat g) x00)
      (addMemoryMap (RtlAllocateHeapHook._heap_addr self) MM_RWX "[heap allocation]"
         (replicate (Z.to_nat (g + 4)) x00) emu) = inr emu' /\
    AllocateHeap.hook ev (self, emu) =
      (({| RtlAllocateHeapHook._heap_addr := RtlAllocateHeapHook._heap_addr self + g |},
        execCallReturn (callconv ev) (RtlAllocateHeapHook._heap_addr self)
          (len (argv ev)) emu'),
       inr ReturnsTrue).
Proof.
  intros Hname Hread Hg Hpos.
  destruct (HeapFacts._allocate_mem_granted self emu s g Hg Hpos)
    as (emu' & Hw & Halloc).
  exists emu'. split; [exact Hw|].
  unfold AllocateHeap.hook. rewrite decide_True by exact Hname.
  unfold_monad. rewrite Hread. simpl.
  unfold_monad. by rewrite Halloc.
Qed.

(** X4, on a [kernel32.VirtualAlloc] of 4096 bytes. *)
Lemma allocate_heap_serves_witness :
  exists emu',
    AllocateHeap.hook (Examples.call_to "kernel32.VirtualAlloc")
      (AllocateHeap.__init__, Examples.at_allocator 4096) =
      (({| RtlAllocateHeapHook._heap_addr := 0x69690000 + 4096 |}, emu'),
       inr ReturnsTrue).
Proof.
  destruct (allocate_heap_serves (Examples.call_to "kernel32.VirtualAlloc")
              AllocateHeap.__init__ (Examples.at_allocator 4096) 4096 4096)
    as (emu' & _ & Hhook);
    [right; right; reflexivity | vm_compute; reflexivity
    | vm_compute; reflexivity | lia |].
  eexists. exact Hhook.
Defined.

(** X5.  When the stack slot that holds the requested size cannot be
    read, each allocation hook raises the read's exception out of [hook]
    and leaves the hook object and the emulator as they were; this holds
    for [MallocHeap.hook] too, which reads the size without using it. *)
Theorem allocators_fail_on_unreadable_size (ev : CallEvent)
    (self : RtlAllocateHeapHook.t) (emu : Emulator) (e : Exn) :
  (callname ev = "ntdll.RtlAllocateHeap" -> getStackValue 0xC emu = inl e ->
   RtlAllocateHeapHook.hook ev (self, emu) = ((self, emu), inl e)) /\
  (callname ev = "kernel32.LocalAlloc" \/ callname ev = "kernel32.GlobalAlloc"
     \/ callname ev = "kernel32.VirtualAlloc" ->
   getStackValue 0x8 emu = inl e ->
   AllocateHeap.hook ev (self, emu) = ((self, emu), inl e)) /\
  (callname ev = "msvcrt.malloc" -> getStackValue 0x4 emu = inl e ->
   MallocHeap.hook ev (self, emu) = ((self, emu), inl e)).
Proof.
  split; [|split]; intros Hname Hread.
  - unfold RtlAllocateHeapHook.hook. rewrite decide_True by exact Hname.
    unfold_monad. by rewrite Hread.
  - unfold AllocateHeap.hook. rewrite decide_True by exact Hname.
    unfold_monad. by rewrite Hread.
  - unfold MallocHeap.hook. rewrite decide_True by exact Hname.
    unfold_monad. by rewrite Hread.
Qed.

(** X5, on a machine whose stack counter points outside every map. *)
Lemma allocators_fail_on_unreadable_size_witness :
  let emu := Examples.machine [] 100 0x7000 in
  RtlAllocateHeapHook.hook (Examples.call_to "ntdll.RtlAllocateHeap")
    (RtlAllocateHeapHook.__init__, emu)
    = ((RtlAllocateHeapHook.__init__, emu), inl (SegmentationViolation 0x119C)) /\
  AllocateHeap.hook (Examples.call_to "kernel32.GlobalAlloc")
    (AllocateHeap.__init__, emu)
    = ((AllocateHeap.__init__, emu), inl (SegmentationViolation 0x1198)) /\
  MallocHeap.hook (Examples.call_to "msvcrt.malloc") (MallocHeap.__init__, emu)
    = ((MallocHeap.__init__, emu), inl (SegmentationViolation 0x1194)).
Proof.
  intros emu. split; [|split].
  - apply (allocators_fail_on_unreadable_size
             (Examples.call_to "ntdll.RtlAllocateHeap")); [reflexivity|].
    vm_compute. reflexivity.
  - apply (allocators_fail_on_unreadable_size
             (Examples.call_to "kernel32.GlobalAlloc")); [right; left; reflexivity|].
    vm_compute. reflexivity.
  - apply (allocators_fail_on_unreadable_size
             (Examples.call_to "msvcrt.malloc")); [reflexivity|].
    vm_compute. reflexivity.
Defined.

(** A write at the base of a map appended after maps that do not hold the
    address lands in the appended map. *)
Lemma write_maps_fresh a bs ms m :
  Forall (fun m' => in_map a m' = false) ms ->
  in_map a m = true ->
  write_maps a bs (ms ++ [m]) =
    Some (ms ++ [{| mva := mva m; msize := msize m; mperms := mperms m;
                    mfname := mfname m;
                    mbytes := take (Z.to_nat (a - mva m)) (mbytes m) ++ bs
                              ++ drop (Z.to_nat (a - mva m) + length bs)%nat
                                   (mbytes m) |}]).
Proof.
  intros Hms Hm. induction Hms as [|m' ms Hm' _ IH]; simpl.
  - by rewrite Hm.
  - by rewrite Hm', IH.
Qed.

(** X6.  When no map of the emulator holds the cursor address, an
    allocation leaves the emulator with its old maps followed by one new
    map at the cursor, readable, writable and executable, named
    "[heap allocation]", of the granted size plus four bytes, all zero; it
    changes nothing else of the emulator, advances the cursor by the
    granted size and returns the old cursor. *)
Theorem allocation_appends_zeroed_map (self : RtlAllocateHeapHook.t)
    (emu : Emulator) (s g : Z) :
  RtlAllocateHeapHook.granted_size s = inr g ->
  0 <= g ->
  Forall (fun m => in_map (RtlAllocateHeapHook._heap_addr self) m = false) (maps emu) ->
  RtlAllocateHeapHook._allocate_mem s (self, emu) =
    (({| RtlAllocateHeapHook._heap_addr := RtlAllocateHeapHook._heap_addr self + g |},
      set_maps (maps emu ++
                [{| mva := RtlAllocateHeapHook._heap_addr self; msize := g + 4;
                    mperms := MM_RWX; mfname := "[heap allocation]";
                    mbytes := replicate (Z.to_nat (g + 4)) x00 |}]) emu),
     inr (RtlAllocateHeapHook._heap_addr self)).
Proof.
  intros Hg Hpos Hfresh.
  destruct (HeapFacts._allocate_mem_granted self emu s g Hg ltac:(lia))
    as (emu' & Hw & ->).
  do 2 f_equal. f_equal.
  unfold writeMemory, addMemoryMap in Hw. simpl in Hw.
  rewrite write_maps_fresh in Hw; [|done|].
  - simpl in Hw. injection Hw as <-. unfold set_maps. simpl.
    rewrite Z.sub_diag. simpl. rewrite !length_replicate, drop_replicate.
    rewrite <- replicate_add.
    replace (Z.to_nat g + (Z.to_nat (g + 4) - Z.to_nat g))%nat
      with (Z.to_nat (g + 4)) by lia.
    by rewrite Z2Nat.id by lia.
  - unfold in_map. simpl. rewrite length_replicate.
    apply andb_true_iff. split; apply bool_decide_eq_true; lia.
Qed.

(** X6, on the first allocation of a run: the heap address is free. *)
Lemma allocation_appends_zeroed_map_witness :
  let emu := Examples.at_allocator 4096 in
  RtlAllocateHeapHook._allocate_mem 4096 (RtlAllocateHeapHook.__init__, emu) =
    (({| RtlAllocateHeapHook._heap_addr := 0x69690000 + 4096 |},
      set_maps (maps emu ++
                [{| mva := 0x69690000; msize := 4096 + 4;
                    mperms := MM_RWX; mfname := "[heap allocation]";
                    mbytes := replicate (Z.to_nat (4096 + 4)) x00 |}]) emu),
     inr 0x69690000).
Proof.
  intros emu.
  apply (allocation_appends_zeroed_map RtlAllocateHeapHook.__init__ emu 4096 4096).
  - vm_compute. reflexivity.
  - lia.
  - repeat constructor.
Defined.

(** X7.  Successive allocations of one requested size through one shim
    instance return base addresses in arithmetic progression: the [k]-th
    call returns the cursor the instance started with plus [k] times the
    granted size, whatever the emulator states. *)
Theorem same_size_bases_progress (self : RtlAllocateHeapHook.t) (s g : Z)
    (emus : list Emulator) :
  RtlAllocateHeapHook.granted_size s = inr g ->
  -4 < g ->
  Heap.base <$> Heap.serve self ((fun emu => (s, emu)) <$> emus) =
    (fun k : nat => RtlAllocateHeapHook._heap_addr self + Z.of_nat k * g)
      <$> seq 0 (length emus).
Proof.
  intros Hg Hpos. revert self.
  induction emus as [|emu emus IH]; intros self; [done|].
  cbn [fmap list_fmap Heap.serve length seq].
  destruct (HeapFacts._allocate_mem_granted self emu s g Hg Hpos) as (emu' & _ & ->).
  cbn [fmap list_fmap Heap.base]. f_equal; [lia|].
  change (list_fmap _ _ Heap.base ?l) with (Heap.base <$> l).
  change (list_fmap _ _ ?f ?l) with (f <$> l).
  rewrite IH. rewrite <- fmap_S_seq, <- list_fmap_compose.
  apply list_fmap_ext. intros _ k _. simpl. lia.
Qed.

(** X7, on three [msvcrt.malloc]-sized allocations of 0x100 bytes. *)
Lemma same_size_bases_progress_witness :
  let emus := [Examples.at_allocator 1; Examples.at_allocator 2;
               Examples.at_allocator 3] in
  Heap.base <$> Heap.serve RtlAllocateHeapHook.__init__
                  ((fun emu => (0x100, emu)) <$> emus)
    = [0x69690000; 0x69690100; 0x69690200].
Proof.
  intros emus.
  rewrite (same_size_bases_progress RtlAllocateHeapHook.__init__ 0x100 256 emus);
    [reflexivity | vm_compute; reflexivity | lia].
Defined.

(** ** Further results: the stack helpers and the return-address monitor *)

(** X8.  When the word at the stack counter is readable, [popStack]
    returns it and moves the stack counter up by one pointer size, changing
    nothing else; memory is untouched, so the popped word is still read
    just below the new stack counter. *)
Theorem popStack_reads_and_advances (emu : Emulator) (v : Z) :
  readMemoryFormat_P (getStackCounter emu) emu = inr v ->
  popStack emu =
    (setStackCounter (getStackCounter emu + pointerSize emu) emu, inr v) /\
  getStackValue (- pointerSize emu)
    (setStackCounter (getStackCounter emu + pointerSize emu) emu) = inr v.
Proof.
  intros Hread. split.
  - unfold popStack. unfold_monad. by rewrite Hread.
  - unfold getStackValue, getStackCounter, setStackCounter, pointerSize. simpl.
    replace (sp emu + imem_psize emu + - imem_psize emu) with (sp emu) by lia.
    exact Hread.
Qed.

(** X8, on a machine with [0x402005] on top of the stack. *)
Lemma popStack_reads_and_advances_witness :
  popStack (Examples.at_allocator 7) =
    (setStackCounter 0x1014 (Examples.at_allocator 7), inr 0x402005) /\
  getStackValue (-4) (setStackCounter 0x1014 (Examples.at_allocator 7))
    = inr 0x402005.
Proof.
  exact (popStack_reads_and_advances (Examples.at_allocator 7) 0x402005 eq_refl).
Defined.

(** A loop of reads succeeds exactly when every read does. *)
Lemma for_each_reads_ok {S A T} (f : A -> S -> Res T) (xs : list A) (s : S) :
  (for_each xs (fun i => ask (f i) ≫= fun _ => mret tt) s).2 = inr tt <->
  Forall (fun i => exists v, f i s = inr v) xs.
Proof.
  induction xs as [|x xs IH]; simpl.
  - split; [constructor|done].
  - unfold_monad. destruct (f x s) as [e|v] eqn:Hx; simpl.
    + split; [done|]. intros H. apply Forall_cons in H as [[v Hv] _]. congruence.
    + rewrite IH. split.
      * intros H. constructor; eauto.
      * intros H. by apply Forall_cons in H as [_ H].
Qed.

(** X9.  [dumpStack] never changes the emulator, and it returns without
    raising exactly when each of the eight words at stack offsets 16, 12,
    8, 4, 0, -4, -8 and -12 can be read. *)
Theorem dumpStack_reads_eight_words (emu : Emulator) :
  (ApiMonitor.dumpStack emu).1 = emu /\
  ((ApiMonitor.dumpStack emu).2 = inr tt <->
   forall i, i ∈ [16; 12; 8; 4; 0; -4; -8; -12] ->
     exists v, getStackValue i emu = inr v).
Proof.
  split; [apply MonitorFacts.readonly_dumpStack|].
  rewrite <- Forall_forall.
  apply (for_each_reads_ok getStackValue [16; 12; 8; 4; 0; -4; -8; -12] emu).
Qed.

Lemma return_vas_loop_run cs ops acc emu :
  Forall2 (fun c op => parseOpcode c emu = inr op) cs ops ->
  ApiMonitor.return_vas_loop cs acc emu =
    (emu, inr (acc ++ ((fun op => va op + size op) <$> ops))).
Proof.
  intros H. revert acc. induction H as [|c op cs ops Hc _ IH]; intros acc; simpl.
  - by rewrite app_nil_r.
  - unfold_monad. rewrite Hc. rewrite IH. by rewrite <- app_assoc.
Qed.

(** X10.  When every caller of the function parses to an opcode,
    [_get_return_vas] returns, in the order of the callers, the address
    that follows each call instruction ([va + size]), and leaves the
    emulator as it was. *)
Theorem _get_return_vas_follows_calls (self : ApiMonitor.t) (f : Z)
    (emu : Emulator) (ops : list Opcode) :
  Forall2 (fun c op => parseOpcode c emu = inr op)
    (getCallers (ApiMonitor._vw self) f) ops ->
  ApiMonitor._get_return_vas self f emu =
    (emu, inr ((fun op => va op + size op) <$> ops)).
Proof.
  intros H. unfold ApiMonitor._get_return_vas.
  by rewrite (return_vas_loop_run _ ops [] emu H).
Qed.

(** X10, on the function at [0x401000] with its three call sites. *)
Lemma _get_return_vas_follows_calls_witness :
  ApiMonitor._get_return_vas Examples.monitor 0x401000 Examples.after_valid_ret =
    (Examples.after_valid_ret, inr [0x402005; 0x402105; 0x402205]).
Proof.
  apply (_get_return_vas_follows_calls Examples.monitor 0x401000
           Examples.after_valid_ret
           [Examples.call_at 0x402000; Examples.call_at 0x402100;
            Examples.call_at 0x402200]).
  repeat constructor.
Defined.

(** X11.  When the address of the return instruction is not in the
    function index, or a caller of its function does not parse,
    [posthook] swallows the exception and leaves the emulator exactly as
    it was, also for a [ret imm16]: the stack counter is moved only after
    both lookups have succeeded. *)
Theorem posthook_unresolved_function (self : ApiMonitor.t) (op : Opcode)
    (endpc : Z) (emu : Emulator) :
  ApiMonitor.function_index self !! va op = None \/
  (exists f e, ApiMonitor.function_index self !! va op = Some f /\
               (ApiMonitor._get_return_vas self f emu).2 = inl e) ->
  ApiMonitor.posthook self op endpc emu = (emu, inr tt).
Proof.
  intros H. unfold ApiMonitor.posthook.
  destruct (decide (mnem op = "ret")); [|done].
  unfold try_except_Exception, ApiMonitor._check_return.
  unfold mbind at 1. unfold M_bind, ask.
  destruct H as [->|(f & x & -> & He)]; [done|].
  unfold mbind at 1. unfold M_bind.
  by rewrite (MonitorFacts.readonly_run _ emu
                (MonitorFacts.readonly__get_return_vas self f)), He.
Qed.

(** X11, on a [ret 8] at an address the index does not know. *)
Lemma posthook_unresolved_function_witness :
  let op := {| va := 0x500000; size := 3; mnem := "ret"; opers := [{| imm := 8 |}] |} in
  ApiMonitor.posthook Examples.monitor op 0 Examples.after_valid_ret_8
    = (Examples.after_valid_ret_8, inr tt).
Proof.
  intros op.
  apply (posthook_unresolved_function Examples.monitor op 0
           Examples.after_valid_ret_8).
  left. reflexivity.
Defined.

Module FrameFacts.
Import Frame.

Lemma same_machine_refl e : same_machine e e.
Proof. by repeat split. Qed.

Lemma same_machine_trans e1 e2 e3 :
  same_machine e1 e2 -> same_machine e2 e3 -> same_machine e1 e3.
Proof.
  intros (? & ? & ? & ? & ?) (? & ? & ? & ? & ?).
  repeat split; congruence.
Qed.

Lemma machine_readonly {T} (m : M Emulator T) : Guard.readonly m -> keeps_machine m.
Proof. intros H s. rewrite H. apply same_machine_refl. Qed.

Lemma machine_bind {A B} (m : M Emulator A) (f : A -> M Emulator B) :
  keeps_machine m -> (forall x, keeps_machine (f x)) -> keeps_machine (m ≫= f).
Proof.
  intros Hm Hf s. unfold_monad. specialize (Hm s).
  destruct (m s) as [s' [e|x]]; simpl in *; [done|].
  eapply same_machine_trans; [exact Hm|apply Hf].
Qed.

Lemma keeps_setStackCounter v : keeps_machine (modify (setStackCounter v)).
Proof. intros s. by repeat split. Qed.

Lemma keeps_setProgramCounter v : keeps_machine (modify (setProgramCounter v)).
Proof. intros s. by repeat split. Qed.

Lemma keeps_scan_stack esp ps R offsets :
  keeps_machine (ApiMonitor.scan_stack esp ps R offsets).
Proof.
  induction offsets as [|o offsets IH]; simpl.
  - apply machine_readonly. by intros s.
  - apply machine_bind; [apply machine_readonly, MonitorFacts.readonly_ask|].
    intros c. destruct (decide (c ∈ R)); [|done].
    apply machine_bind; [apply keeps_setProgramCounter|]. intros _.
    apply machine_bind; [apply keeps_setStackCounter|]. intros _.
    apply machine_bind; [apply machine_readonly, MonitorFacts.readonly_dumpStack|].
    intros _. apply machine_readonly. by intros s.
Qed.

Lemma keeps__fix_return ra R : keeps_machine (ApiMonitor._fix_return ra R).
Proof.
  unfold ApiMonitor._fix_return.
  apply machine_bind; [apply machine_readonly, MonitorFacts.readonly_dumpStack|].
  intros _. apply machine_bind; [apply machine_readonly; by intros s|].
  intros emu. apply machine_bind; [apply machine_readonly, MonitorFacts.readonly_ask|].
  intros offsets. apply machine_bind; [apply keeps_scan_stack|].
  intros [|].
  - apply machine_readonly. by intros s.
  - apply machine_bind; [apply machine_readonly, MonitorFacts.readonly_dumpStack|].
    intros _. apply machine_readonly. by intros s.
Qed.

Lemma keeps__check_return self op : keeps_machine (ApiMonitor._check_return self op).
Proof.
  unfold ApiMonitor._check_return.
  apply machine_bind; [apply machine_readonly, MonitorFacts.readonly_ask|].
  intros f.
  apply machine_bind;
    [apply machine_readonly, MonitorFacts.readonly__get_return_vas|].
  intros R. apply machine_bind.
  - destruct (opers op) as [|o os].
    + apply machine_readonly. by intros s.
    + intros s. by repeat split.
  - intros _. apply machine_bind; [apply machine_readonly, MonitorFacts.readonly_ask|].
    intros ra. destruct (decide (ra ∉ R)).
    + apply keeps__fix_return.
    + apply machine_readonly. by intros s.
Qed.

(** The scan over slots that all read and hold no valid address runs to
    the end of the window. *)
Lemma scan_stack_all_invalid esp ps R offsets emu :
  Forall (fun off => exists w, getStackValue off emu = inr w /\ w ∉ R) offsets ->
  ApiMonitor.scan_stack esp ps R offsets emu = (emu, inr false).
Proof.
  induction 1 as [|o offsets (w & Hw & HR) _ IH]; simpl; [done|].
  unfold_monad. rewrite Hw. by rewrite decide_False by done.
Qed.
End FrameFacts.

(** X12.  [posthook] never raises, whatever the instruction and the
    state, and of the emulator it changes at most the stack counter and
    the program counter: memory maps, pointer size, registers, taints and
    workspace stay as they were. *)
Theorem posthook_changes_only_sp_and_pc (self : ApiMonitor.t) (op : Opcode)
    (endpc : Z) (emu : Emulator) :
  let r := ApiMonitor.posthook self op endpc emu in
  r.2 = inr tt /\
  maps r.1 = maps emu /\ imem_psize r.1 = imem_psize emu /\
  regs r.1 = regs emu /\ taints r.1 = taints emu /\ vw r.1 = vw emu.
Proof.
  intros r. subst r. unfold ApiMonitor.posthook.
  destruct (decide (mnem op = "ret")); [|by repeat split].
  pose proof (FrameFacts.keeps__check_return self op emu) as Hk.
  unfold try_except_Exception.
  destruct (ApiMonitor._check_return self op emu) as [emu' [x|[]]];
    simpl in *; by split.
Qed.

(** X13.  For a return instruction of a function that has no callers in
    the workspace the valid set is empty: [posthook] finds nothing to
    return to and leaves the emulator as the operand adjustment left it
    (untouched for a plain [ret]), with the program counter unchanged. *)
Theorem posthook_without_callers (self : ApiMonitor.t) (op : Opcode)
    (endpc f : Z) (emu : Emulator) :
  mnem op = "ret" ->
  ApiMonitor.function_index self !! va op = Some f ->
  getCallers (ApiMonitor._vw self) f = [] ->
  ApiMonitor.posthook self op endpc emu = (Guard.adjusted op emu, inr tt).
Proof.
  intros Hret Hf Hc.
  unfold ApiMonitor.posthook. rewrite decide_True by done.
  unfold try_except_Exception.
  rewrite (MonitorFacts._check_return_run self op f [] emu Hf);
    [|by unfold ApiMonitor._get_return_vas; rewrite Hc].
  destruct (getStackValue (-4) (Guard.adjusted op emu)) as [x|ra]; [done|].
  rewrite decide_False by apply not_elem_of_nil.
  destruct (MonitorFacts._fix_return_not_found ra [] (Guard.adjusted op emu))
    as (x & ->); [|done].
  intros j w _ _. apply not_elem_of_nil.
Qed.

(** X13, on a workspace that records no caller of the function. *)
Lemma posthook_without_callers_witness :
  let mon := ApiMonitor.__init__ {| callers := ∅; opcodes := ∅ |} Examples.index in
  ApiMonitor.posthook mon Examples.ret_8 0x402005 Examples.after_valid_ret_8
    = (setStackCounter 0x1008 Examples.after_valid_ret_8, inr tt).
Proof.
  intros mon.
  exact (posthook_without_callers mon Examples.ret_8 0x402005 0x401000
           Examples.after_valid_ret_8 eq_refl eq_refl eq_refl).
Defined.

(** X14.  When the stack dump reads succeed, the pointer size is not 0
    and each of the four slots of the window reads a word that is not a
    valid return address, [_fix_return] raises
    [Exception("No valid return address found...")] and leaves the
    emulator as it was. *)
Theorem _fix_return_raises_when_nothing_found (ra : Z) (R : list Z)
    (emu : Emulator) :
  (ApiMonitor.dumpStack emu).2 = inr tt ->
  imem_psize emu <> 0 ->
  (forall j : nat, (j < 4)%nat ->
     exists w, getStackValue (Z.of_nat j * imem_psize emu) emu = inr w /\ w ∉ R) ->
  ApiMonitor._fix_return ra R emu =
    (emu, inl (Exception "No valid return address found...")).
Proof.
  intros Hdump Hps Hslots.
  unfold ApiMonitor._fix_return.
  unfold mbind at 1. unfold M_bind.
  rewrite (MonitorFacts.readonly_run _ emu MonitorFacts.readonly_dumpStack), Hdump.
  unfold_monad. unfold getPointerSize. rewrite (MonitorFacts.xrange_window _ Hps).
  rewrite FrameFacts.scan_stack_all_invalid.
  - by rewrite (MonitorFacts.readonly_run _ emu MonitorFacts.readonly_dumpStack), Hdump.
  - assert (H : forall j : nat, (j < 4)%nat -> forall off,
                off = Z.of_nat j * imem_psize emu ->
                exists w, getStackValue off emu = inr w /\ w ∉ R)
      by (intros j Hj off ->; by apply Hslots).
    repeat constructor;
      [apply (H 0%nat)|apply (H 1%nat)|apply (H 2%nat)|apply (H 3%nat)]; lia.
Qed.

(** X14, on a stack with no valid return address near its top. *)
Lemma _fix_return_raises_when_nothing_found_witness :
  ApiMonitor._fix_return 0xdeadbeef Examples.valid_targets Examples.after_lost_ret =
    (Examples.after_lost_ret, inl (Exception "No valid return address found...")).
Proof.
  apply _fix_return_raises_when_nothing_found.
  - vm_compute. reflexivity.
  - vm_compute. discriminate.
  - intros j Hj. destruct j as [|[|[|[|j]]]]; [| | | |lia].
    + exists 1. split; [vm_compute; reflexivity|compute_done].
    + exists 2. split; [vm_compute; reflexivity|compute_done].
    + exists 3. split; [vm_compute; reflexivity|compute_done].
    + exists 4. split; [vm_compute; reflexivity|compute_done].
Defined.

(** ** Further results: the hook chain and the orchestrator *)

Module ChainFacts.
Import Run.

Lemma store_eta st :
  set_emu (emu_of st) st = st /\
  set_rtl_allocate_heap (rtl_allocate_heap st) st = st /\
  set_allocate_heap (allocate_heap st) st = st /\
  set_malloc_heap (malloc_heap st) st = st.
Proof. by destruct st. Qed.

(** A hook that raises [UnsupportedFunction] without touching the store
    hands the call on. *)
Lemma run_hooks_skip (h : Hook) rest ev st :
  h ev st = (st, inl UnsupportedFunction) ->
  run_hooks (h :: rest) ev st = run_hooks rest ev st.
Proof. intros H. by rewrite RunFacts.run_hooks_cons, H. Qed.

Lemma get_process_heap_skips ev st :
  callname ev <> "kernel32.GetProcessHeap" ->
  get_process_heap_hook ev st = (st, inl UnsupportedFunction).
Proof.
  intros Hn. unfold get_process_heap_hook, bound, compose, GetProcessHeapHook.hook.
  rewrite decide_False by done. simpl. by destruct st.
Qed.

Lemma rtl_allocate_heap_skips ev st :
  callname ev <> "ntdll.RtlAllocateHeap" ->
  rtl_allocate_heap_hook ev st = (st, inl UnsupportedFunction).
Proof.
  intros Hn. unfold rtl_allocate_heap_hook, bound, compose, RtlAllocateHeapHook.hook.
  rewrite decide_False by done. simpl. by destruct st.
Qed.

Lemma allocate_heap_skips ev st :
  ~ (callname ev = "kernel32.LocalAlloc" \/ callname ev = "kernel32.GlobalAlloc"
     \/ callname ev = "kernel32.VirtualAlloc") ->
  allocate_heap_hook ev st = (st, inl UnsupportedFunction).
Proof.
  intros Hn. unfold allocate_heap_hook, bound, compose, AllocateHeap.hook.
  rewrite decide_False by done. simpl. by destruct st.
Qed.

Lemma malloc_heap_skips ev st :
  callname ev <> "msvcrt.malloc" ->
  malloc_heap_hook ev st = (st, inl UnsupportedFunction).
Proof.
  intros Hn. unfold malloc_heap_hook, bound, compose, MallocHeap.hook.
  rewrite decide_False by done. simpl. by destruct st.
Qed.

(** The store once the collector, first in the chain, has seen the call. *)
Lemma chain_after_collector mon ev st :
  run_hooks (_hooks (make_driver mon)) ev st =
    run_hooks [get_process_heap_hook; rtl_allocate_heap_hook; allocate_heap_hook;
               malloc_heap_hook; exit_process_hook] ev
      (set_delta_collector
         {| DeltaCollectorHook._pre_snap :=
              DeltaCollectorHook._pre_snap (delta_collector st);
            DeltaCollectorHook.deltas :=
              DeltaCollectorHook.deltas (delta_collector st)
              ++ recorded (delta_collector st) (emu_of st) |} st).
Proof.
  change (_hooks (make_driver mon))
    with (delta_collector_hook ::
          [get_process_heap_hook; rtl_allocate_heap_hook; allocate_heap_hook;
           malloc_heap_hook; exit_process_hook]).
  rewrite RunFacts.run_hooks_cons. unfold delta_collector_hook at 1, bound, compose.
  by rewrite RunFacts.collector_hook_run.
Qed.

(** The chain on a call to [kernel32.ExitProcess]. *)
Lemma chain_on_exit_process mon ev st :
  callname ev = "kernel32.ExitProcess" ->
  run_hooks (_hooks (make_driver mon)) ev st =
    (set_delta_collector
       {| DeltaCollectorHook._pre_snap :=
            DeltaCollectorHook._pre_snap (delta_collector st);
          DeltaCollectorHook.deltas :=
            DeltaCollectorHook.deltas (delta_collector st)
            ++ recorded (delta_collector st) (emu_of st) |} st,
     inl StopEmulation).
Proof.
  intros Hn. rewrite chain_after_collector.
  rewrite run_hooks_skip by (apply get_process_heap_skips; by rewrite Hn).
  rewrite run_hooks_skip by (apply rtl_allocate_heap_skips; by rewrite Hn).
  rewrite run_hooks_skip
    by (apply allocate_heap_skips; rewrite Hn; by intros [?|[?|?]]).
  rewrite run_hooks_skip by (apply malloc_heap_skips; by rewrite Hn).
  rewrite RunFacts.run_hooks_cons.
  unfold exit_process_hook, bound, compose, ExitProcessHook.hook.
  rewrite decide_True by done. simpl. by destruct st.
Qed.

Lemma recorded_length c emu : (length (recorded c emu) <= 1)%nat.
Proof. unfold recorded. destruct (is_import _ _); simpl; lia. Qed.

(** A run of the driver adds at most one delta per instruction of its
    budget. *)
Lemma runToVa_length engine mon target budget st :
  (length (DeltaCollectorHook.deltas
             (delta_collector (runToVa engine (make_driver mon) target budget st).1))
   <= length (DeltaCollectorHook.deltas (delta_collector st)) + budget)%nat.
Proof.
  revert st. induction budget as [|budget IH]; intros st; simpl; [lia|].
  unfold mbind at 1. unfold M_bind, get.
  destruct (decide (getProgramCounter (emu_of st) = target)); [simpl; lia|].
  unfold mbind, M_bind.
  pose proof (RunFacts.stepi_collector engine mon st) as Hc.
  assert (Hstep : forall st',
            delta_collector st' =
              match engine (emu_of st) with
              | Called op ev emu' =>
                  {| DeltaCollectorHook._pre_snap :=
                       DeltaCollectorHook._pre_snap (delta_collector st);
                     DeltaCollectorHook.deltas :=
                       DeltaCollectorHook.deltas (delta_collector st)
                       ++ recorded (delta_collector st) emu' |}
              | _ => delta_collector st
              end ->
            (length (DeltaCollectorHook.deltas (delta_collector st'))
             <= length (DeltaCollectorHook.deltas (delta_collector st)) + 1)%nat).
  { intros st' ->. destruct (engine (emu_of st)) as [| op ev emu' |]; simpl; try lia.
    rewrite length_app. pose proof (recorded_length (delta_collector st) emu'). lia. }
  destruct (stepi engine (make_driver mon) st) as [st' [e|[]]]; simpl in Hc.
  - simpl. specialize (Hstep st' Hc). lia.
  - specialize (IH st'). specialize (Hstep st' Hc). lia.
Qed.
End ChainFacts.

(** X15.  A call name that none of the registered hooks knows passes the
    whole chain unhandled: the collector records the call if its target is
    imported, and the emulator and the three heap cursors stay as they
    were. *)
Theorem unknown_call_passes_chain (mon : ApiMonitor.t) (ev : CallEvent)
    (st : Store) :
  callname ev ∉ ["kernel32.GetProcessHeap"; "ntdll.RtlAllocateHeap";
                 "kernel32.LocalAlloc"; "kernel32.GlobalAlloc";
                 "kernel32.VirtualAlloc"; "msvcrt.malloc";
                 "kernel32.ExitProcess"] ->
  run_hooks (_hooks (make_driver mon)) ev st =
    ({| emu_of := emu_of st;
        delta_collector :=
          {| DeltaCollectorHook._pre_snap :=
               DeltaCollectorHook._pre_snap (delta_collector st);
             DeltaCollectorHook.deltas :=
               DeltaCollectorHook.deltas (delta_collector st)
               ++ (if is_import (emu_of st) (getProgramCounter (emu_of st))
                   then [{| pre_snap := DeltaCollectorHook._pre_snap (delta_collector st);
                            post_snap := make_snapshot (emu_of st) |}]
                   else []) |};
        rtl_allocate_heap := rtl_allocate_heap st;
        allocate_heap := allocate_heap st;
        malloc_heap := malloc_heap st |}, inr false).
Proof.
  intros Hn.
  repeat (apply not_elem_of_cons in Hn as [? Hn]).
  rewrite ChainFacts.chain_after_collector.
  rewrite ChainFacts.run_hooks_skip by (by apply ChainFacts.get_process_heap_skips).
  rewrite ChainFacts.run_hooks_skip by (by apply ChainFacts.rtl_allocate_heap_skips).
  rewrite ChainFacts.run_hooks_skip
    by (apply ChainFacts.allocate_heap_skips; by intros [?|[?|?]]).
  rewrite ChainFacts.run_hooks_skip by (by apply ChainFacts.malloc_heap_skips).
  rewrite RunFacts.run_hooks_cons.
  unfold exit_process_hook, bound, compose, ExitProcessHook.hook.
  rewrite decide_False by done. by simpl.
Qed.

(** X15, on a call to [kernel32.Sleep] at the import [0x7000]. *)
Lemma unknown_call_passes_chain_witness :
  let st := initial_store (Examples.at_allocator 5000) in
  let r := run_hooks (_hooks (make_driver Examples.monitor))
             (Examples.call_to "kernel32.Sleep") st in
  r.2 = inr false /\
  emu_of r.1 = emu_of st /\
  length (DeltaCollectorHook.deltas (delta_collector r.1)) = 1%nat /\
  malloc_heap r.1 = malloc_heap st.
Proof.
  intros st r. subst r.
  rewrite (unknown_call_passes_chain Examples.monitor
             (Examples.call_to "kernel32.Sleep") st); [|compute_done].
  repeat split.
Defined.

(** The driver's run when its first step is a call to [ExitProcess]. *)
Lemma runToVa_on_exit_process engine mon target n st op ev emu' :
  engine (emu_of st) = Called op ev emu' ->
  callname ev = "kernel32.ExitProcess" ->
  getProgramCounter (emu_of st) <> target ->
  runToVa engine (make_driver mon) target (S n) st =
    (set_delta_collector
       {| DeltaCollectorHook._pre_snap :=
            DeltaCollectorHook._pre_snap (delta_collector st);
          DeltaCollectorHook.deltas :=
            DeltaCollectorHook.deltas (delta_collector st)
            ++ Run.recorded (delta_collector st) emu' |} (set_emu emu' st),
     inl StopEmulation).
Proof.
  intros Hstep Hname Hpc.
  cbn [runToVa]. unfold mbind at 1. unfold M_bind, get.
  rewrite decide_False by exact Hpc.
  unfold mbind at 1. unfold M_bind.
  unfold stepi. unfold mbind at 1. unfold M_bind, get.
  rewrite Hstep.
  unfold mbind at 1. unfold M_bind, modify.
  unfold mbind at 1. unfold M_bind.
  by rewrite (ChainFacts.chain_on_exit_process _ ev _ Hname).
Qed.

(** X16.  When the first instruction of a run with a positive budget is a
    call resolved to "kernel32.ExitProcess", the run stops there:
    [emulate_function] returns the delta of that call if its target is
    imported, followed by the final delta, and both end in the state of the
    emulator at the call. *)
Theorem exit_process_stops_run (engine : Engine) (fi : gmap Z Z)
    (fva return_address max_instruction_count : Z) (emu emu' : Emulator)
    (op : Opcode) (ev : CallEvent) :
  engine emu = Called op ev emu' ->
  callname ev = "kernel32.ExitProcess" ->
  getProgramCounter emu <> return_address ->
  0 < max_instruction_count ->
  emulate_function engine fi fva return_address max_instruction_count emu =
    (emu',
     inr ((if is_import emu' (getProgramCounter emu')
           then [{| pre_snap := make_snapshot emu; post_snap := make_snapshot emu' |}]
           else [])
          ++ [{| pre_snap := make_snapshot emu; post_snap := make_snapshot emu' |}])).
Proof.
  intros Hstep Hname Hpc Hbudget.
  rewrite RunFacts.emulate_function_run.
  destruct (Z.to_nat max_instruction_count) as [|n] eqn:Hn; [lia|].
  rewrite (runToVa_on_exit_process engine _ return_address n (initial_store emu)
             op ev emu' Hstep Hname Hpc).
  reflexivity.
Qed.

(** X16, on a machine whose next instruction calls [ExitProcess] at the
    import [0x7000]. *)
Lemma exit_process_stops_run_witness :
  let emu := Examples.after_bad_ret in
  let at_import := setProgramCounter 0x7000 emu in
  emulate_function (Examples.calling_engine "kernel32.ExitProcess") Examples.index
      0x401000 0x402005 1000 emu
    = (at_import,
       inr [{| pre_snap := make_snapshot emu; post_snap := make_snapshot at_import |};
            {| pre_snap := make_snapshot emu; post_snap := make_snapshot at_import |}]).
Proof.
  intros emu at_import.
  rewrite (exit_process_stops_run (Examples.calling_engine "kernel32.ExitProcess")
             Examples.index 0x401000 0x402005 1000 emu at_import
             {| va := pc emu; size := 5; mnem := "call"; opers := [] |}
             (Examples.call_to "kernel32.ExitProcess"));
    [reflexivity | reflexivity | reflexivity | vm_compute; discriminate | lia].
Defined.

(** The driver's run from a store whose emulator is at the target. *)
Lemma runToVa_at_target engine d target n st :
  getProgramCounter (emu_of st) = target ->
  runToVa engine d target (S n) st = (st, inr tt).
Proof.
  intros H. cbn [runToVa]. unfold mbind at 1. unfold M_bind, get.
  by rewrite decide_True by exact H.
Qed.

(** X17.  When the instruction budget is not positive, or the emulator
    already stands at the return address, nothing is emulated:
    [emulate_function] leaves the emulator as it was and returns the single
    delta whose two snapshots are both the snapshot of that emulator. *)
Theorem emulate_function_without_steps (engine : Engine) (fi : gmap Z Z)
    (fva return_address max_instruction_count : Z) (emu : Emulator) :
  max_instruction_count <= 0 \/ getProgramCounter emu = return_address ->
  emulate_function engine fi fva return_address max_instruction_count emu =
    (emu, inr [{| pre_snap := make_snapshot emu; post_snap := make_snapshot emu |}]).
Proof.
  intros H. rewrite RunFacts.emulate_function_run.
  destruct (Z.to_nat max_instruction_count) as [|n] eqn:Hn; [done|].
  destruct H as [H|H]; [lia|].
  by rewrite (runToVa_at_target engine _ return_address n (initial_store emu) H).
Qed.

(** X17, on a budget of 0 and on a machine that is at the return address. *)
Lemma emulate_function_without_steps_witness :
  let emu := Examples.after_valid_ret in
  emulate_function Examples.spinning_engine Examples.index 0x401000 0x402005 0 emu
    = (emu, inr [{| pre_snap := make_snapshot emu; post_snap := make_snapshot emu |}]) /\
  emulate_function Examples.spinning_engine Examples.index 0x401000 0x402105 1000 emu
    = (emu, inr [{| pre_snap := make_snapshot emu; post_snap := make_snapshot emu |}]).
Proof.
  intros emu. split.
  - apply emulate_function_without_steps. left. lia.
  - apply emulate_function_without_steps. right. reflexivity.
Defined.

(** X18.  The sequence [emulate_function] returns holds at most one delta
    per instruction of the budget besides the final one: its length is at
    least 1 and at most the budget plus 1. *)
Theorem delta_count_bounded_by_budget (engine : Engine) (fi : gmap Z Z)
    (fva return_address max_instruction_count : Z) (emu : Emulator) :
  exists deltas,
    (emulate_function engine fi fva return_address max_instruction_count emu).2
      = inr deltas /\
    (1 <= length deltas <= Z.to_nat max_instruction_count + 1)%nat.
Proof.
  rewrite RunFacts.emulate_function_run. simpl.
  eexists. split; [reflexivity|].
  rewrite length_app. simpl.
  pose proof (ChainFacts.runToVa_length engine
                (ApiMonitor.__init__ (vw emu) fi) return_address
                (Z.to_nat max_instruction_count) (initial_store emu)) as H.
  simpl in H. lia.
Qed.

(** X19.  A call named "kernel32.GetProcessHeap" is handled by
    [GetProcessHeapHook], second in the chain: the call returns 0 through
    [execCallReturn] with the number of arguments, the hooks after it are
    not tried, and the three heap cursors stay as they were; the collector
    before it has recorded the call if its target is imported. *)
Theorem get_process_heap_handled (mon : ApiMonitor.t) (ev : CallEvent)
    (st : Store) :
  callname ev = "kernel32.GetProcessHeap" ->
  run_hooks (_hooks (make_driver mon)) ev st =
    ({| emu_of := execCallReturn (callconv ev) 0 (len (argv ev)) (emu_of st);
        delta_collector :=
          {| DeltaCollectorHook._pre_snap :=
               DeltaCollectorHook._pre_snap (delta_collector st);
             DeltaCollectorHook.deltas :=
               DeltaCollectorHook.deltas (delta_collector st)
               ++ (if is_import (emu_of st) (getProgramCounter (emu_of st))
                   then [{| pre_snap := DeltaCollectorHook._pre_snap (delta_collector st);
                            post_snap := make_snapshot (emu_of st) |}]
                   else []) |};
        rtl_allocate_heap := rtl_allocate_heap st;
        allocate_heap := allocate_heap st;
        malloc_heap := malloc_heap st |}, inr true).
Proof.
  intros Hn. rewrite ChainFacts.chain_after_collector.
  rewrite RunFacts.run_hooks_cons.
  unfold get_process_heap_hook, bound, compose, GetProcessHeapHook.hook.
  rewrite decide_True by done. by simpl.
Qed.

(** X19, on a call at the import [0x7000]. *)
Lemma get_process_heap_handled_witness :
  let st := initial_store (Examples.at_allocator 0) in
  let r := run_hooks (_hooks (make_driver Examples.monitor))
             (Examples.call_to "kernel32.GetProcessHeap") st in
  r.2 = inr true /\
  regs (emu_of r.1) = [("eax", 0)] /\
  rtl_allocate_heap r.1 = RtlAllocateHeapHook.__init__.
Proof.
  intros st r. subst r.
  rewrite (get_process_heap_handled Examples.monitor
             (Examples.call_to "kernel32.GetProcessHeap") st eq_refl).
  repeat split.
Defined.

(** X20.  A call named "msvcrt.malloc" whose size slot is readable passes
    the collector and the three hooks before [MallocHeap], which handles
    it: the call returns the malloc cursor, that cursor advances by 256,
    and the cursors of [RtlAllocateHeapHook] and [AllocateHeap] stay as
    they were, each shim instance keeping a heap of its own. *)
Theorem malloc_call_dispatched (mon : ApiMonitor.t) (ev : CallEvent)
    (st : Store) (s : Z) :
  callname ev = "msvcrt.malloc" ->
  getStackValue 0x4 (emu_of st) = inr s ->
  exists emu',
    writeMemory (RtlAllocateHeapHook._heap_addr (malloc_heap st)) (replicate 256 x00)
      (addMemoryMap (RtlAllocateHeapHook._heap_addr (malloc_heap st)) MM_RWX
         "[heap allocation]" (replicate 260 x00) (emu_of st)) = inr emu' /\
    run_hooks (_hooks (make_driver mon)) ev st =
      ({| emu_of := execCallReturn (callconv ev)
                      (RtlAllocateHeapHook._heap_addr (malloc_heap st))
                      (len (argv ev)) emu';
          delta_collector :=
            {| DeltaCollectorHook._pre_snap :=
                 DeltaCollectorHook._pre_snap (delta_collector st);
               DeltaCollectorHook.deltas :=
                 DeltaCollectorHook.deltas (delta_collector st)
                 ++ (if is_import (emu_of st) (getProgramCounter (emu_of st))
                     then [{| pre_snap :=
                                DeltaCollectorHook._pre_snap (delta_collector st);
                              post_snap := make_snapshot (emu_of st) |}]
                     else []) |};
          rtl_allocate_heap := rtl_allocate_heap st;
          allocate_heap := allocate_heap st;
          malloc_heap :=
            {| RtlAllocateHeapHook._heap_addr :=
                 RtlAllocateHeapHook._heap_addr (malloc_heap st) + 256 |} |},
       inr true).
Proof.
  intros Hn Hread.
  assert (Hg : RtlAllocateHeapHook.granted_size 0x100 = inr 256)
    by (vm_compute; reflexivity).
  destruct (HeapFacts._allocate_mem_granted (malloc_heap st) (emu_of st)
              0x100 256 Hg ltac:(lia)) as (emu' & Hw & Halloc).
  exists emu'. split; [exact Hw|].
  rewrite ChainFacts.chain_after_collector.
  rewrite ChainFacts.run_hooks_skip
    by (apply ChainFacts.get_process_heap_skips; by rewrite Hn).
  rewrite ChainFacts.run_hooks_skip
    by (apply ChainFacts.rtl_allocate_heap_skips; by rewrite Hn).
  rewrite ChainFacts.run_hooks_skip
    by (apply ChainFacts.allocate_heap_skips; rewrite Hn; by intros [?|[?|?]]).
  rewrite RunFacts.run_hooks_cons.
  unfold malloc_heap_hook, bound, compose, MallocHeap.hook.
  rewrite decide_True by done.
  cbn [emu_of malloc_heap set_delta_collector].
  unfold_monad. rewrite Hread. simpl. unfold_monad.
  by rewrite Halloc.
Qed.

(** X20, on a call that asks for 5000 bytes. *)
Lemma malloc_call_dispatched_witness :
  let st := initial_store (Examples.at_allocator 5000) in
  let r := run_hooks (_hooks (make_driver Examples.monitor))
             (Examples.call_to "msvcrt.malloc") st in
  r.2 = inr true /\
  malloc_heap r.1 = {| RtlAllocateHeapHook._heap_addr := 0x69690000 + 256 |} /\
  rtl_allocate_heap r.1 = RtlAllocateHeapHook.__init__ /\
  allocate_heap r.1 = AllocateHeap.__init__.
Proof.
  intros st r. subst r.
  destruct (malloc_call_dispatched Examples.monitor
              (Examples.call_to "msvcrt.malloc") st 5000 eq_refl)
    as (emu' & _ & ->); [vm_compute; reflexivity|].
  repeat split.
Defined.
